(** * libshveu tools: image sizing, chroma addressing, rectangle fill and
      the VEU operation life cycle

    The development follows the two demonstration tools of the repository,
    [shveu-convert] and [shveu-display].  The first part embeds the C code
    of the tools: [imgsize], the chroma pointer set-up of [main],
    [draw_rect_rgb565] and the bundled loop of [scale].  The second part
    models the VEU library the tools call. *)

From Stdlib Require Import ZArith NArith Lia Bool List.
From stdpp Require Import base list.
Import ListNotations.

Local Open Scope Z_scope.

(** ** C integer arithmetic

    An [int] is a 32-bit two's complement number: results of [*], [+], [-]
    and [/] that leave the range wrap around. *)

Module CInt.

Definition INT_MAX : Z := 2147483647.
Definition INT_MIN : Z := -2147483648.

Definition in_range (z : Z) : Prop := INT_MIN <= z <= INT_MAX.

Definition wrap (z : Z) : Z := (z + 2147483648) mod 4294967296 - 2147483648.

Definition mul (a b : Z) : Z := wrap (a * b).
Definition add (a b : Z) : Z := wrap (a + b).
Definition sub (a b : Z) : Z := wrap (a - b).
(* C division truncates towards zero *)
Definition div (a b : Z) : Z := wrap (a ÷ b).

End CInt.

(** ** Pixel format codes

    [sh_vid_format_t] is declared in [shveu/shveu.h], which is not among
    the sources; the enumerators enter as parameters.  The only property
    used is the one C itself demands of them as [case] labels of one
    [switch]: they are pairwise different. *)

Record sh_vid_format_t := {
  SH_UNKNOWN : Z;
  SH_NV12 : Z;
  SH_NV16 : Z;
  SH_RGB565 : Z;
  SH_RGB24 : Z;
  SH_RGB32 : Z
}.

Definition enumerated (F : sh_vid_format_t) : list Z :=
  [SH_RGB565 F; SH_RGB24 F; SH_RGB32 F; SH_NV12 F; SH_NV16 F].

Definition distinct_formats (F : sh_vid_format_t) : Prop :=
  NoDup (SH_UNKNOWN F :: enumerated F).

(** One numbering of the enumerators, on which the code can be run. *)
Definition shveu_h : sh_vid_format_t :=
  {| SH_UNKNOWN := 0; SH_NV12 := 1; SH_NV16 := 2;
     SH_RGB565 := 3; SH_RGB24 := 4; SH_RGB32 := 5 |}.

(** ** [imgsize] (shveu-convert.c and shveu-display.c, same body) *)

Section Tools.

Variable F : sh_vid_format_t.

(** The [switch (colorspace)]: numerator [n] and denominator [d] of the
    bytes per pixel, [None] on the [default:] branch. *)
Definition imgsize_switch (colorspace : Z) : option (Z * Z) :=
  if colorspace =? SH_RGB32 F then Some (4, 1)
  else if colorspace =? SH_RGB24 F then Some (3, 1)
  else if (colorspace =? SH_RGB565 F) || (colorspace =? SH_NV16 F) then Some (2, 1)
  else if colorspace =? SH_NV12 F then Some (3, 2)
  else None.

(** [return (off_t)(w*h*n/d)], evaluated in [int] before the cast. *)
Definition imgsize (colorspace w h : Z) : Z :=
  match imgsize_switch colorspace with
  | Some (n, d) => CInt.div (CInt.mul (CInt.mul w h) n) d
  | None => -1
  end.

(** ** Chroma pointer set-up in [main]

    shveu-convert.c:
    [if (src.format == SH_RGB565) src.pc = 0; else src.pc = src.py + (src.w * src.h);]
    The product is an [int]; the address addition is left unbounded. *)
Definition convert_pc (format py w h : Z) : Z :=
  if format =? SH_RGB565 F then 0 else py + CInt.mul w h.

(** shveu-display.c: [src_pc = src_py + (input_w * input_h);] *)
Definition display_pc (py w h : Z) : Z := py + CInt.mul w h.

(** The displacement of the chroma plane from the start of the buffer as
    shveu-convert sets it; [0] where it stores the null chroma pointer. *)
Definition chroma_offset (format w h : Z) : Z :=
  if format =? SH_RGB565 F then 0 else CInt.mul w h.

(** Modelled from the spec: the size of the chroma plane, which no source
    file computes.  NV12 has [w*h/2] chroma bytes after the luma plane;
    NV16 has 2 bytes per pixel of which [w*h] are luma; the RGB formats
    have no chroma plane. *)
Definition chroma_plane_size (format w h : Z) : Z :=
  if format =? SH_NV12 F then (w * h) / 2
  else if format =? SH_NV16 F then w * h
  else 0.

(** The frame's byte count, [w*h*n] before the division, is an [int]. *)
Definition frame_fits (colorspace w h : Z) : Prop :=
  match imgsize_switch colorspace with
  | Some (n, _) => w * h * n <= CInt.INT_MAX
  | None => False
  end.

End Tools.

(** ** [draw_rect_rgb565] (shveu-display.c)

    The surface is an array of [uint16_t] pixels and [pix] an index into
    it, counted from the start of the surface.  A store outside the array
    is undefined behaviour in C and gives [None] here. *)

Definition store (m : list Z) (pix color : Z) : option (list Z) :=
  if (0 <=? pix) && (pix <? Z.of_nat (length m))
  then Some (<[Z.to_nat pix := color]> m)
  else None.

(** [for (xi=0; xi<w; xi++) *pix++ = color;] with [n] iterations left;
    returns the advanced [pix] too. *)
Fixpoint fill_row (n : nat) (color pix : Z) (m : list Z) : option (Z * list Z) :=
  match n with
  | O => Some (pix, m)
  | S n' =>
      match store m pix color with
      | Some m' => fill_row n' color (pix + 1) m'
      | None => None
      end
  end.

(** [for (yi=0; yi<h; yi++) { <row>; pix += (span-w); }] with [n]
    iterations left. *)
Fixpoint fill_rows (n : nat) (color w span pix : Z) (m : list Z) : option (list Z) :=
  match n with
  | O => Some m
  | S n' =>
      match fill_row (Z.to_nat w) color pix m with
      | Some (pix', m') => fill_rows n' color w span (pix' + CInt.sub span w) m'
      | None => None
      end
  end.

(** [pix] starts at [surface + y*span + x], counted in pixels; then the
    two loops run. *)
Definition draw_rect_rgb565 (surface : list Z) (color x y w h span : Z)
  : option (list Z) :=
  fill_rows (Z.to_nat h) color w span (CInt.mul y span + x) surface.

(** The pixel at row [r] and column [c] of a surface of row span [span]. *)
Definition pixel (surface : list Z) (span r c : Z) : option Z :=
  surface !! Z.to_nat (r * span + c).

(** Membership of a pixel in the rectangle [(x, y, w, h)]. *)
Definition in_rect (x y w h r c : Z) : bool :=
  (y <=? r) && (r <? y + h) && (x <=? c) && (c <? x + w).

(** A rectangle that lies inside a surface of [rows] rows of [span] pixels. *)
Definition rect_in_bounds (x y w h span rows : Z) : Prop :=
  0 <= x /\ 0 <= y /\ 0 <= w /\ 0 <= h /\ x + w <= span /\ y + h <= rows.

(** An RGB565 surface of [rows] rows of [span] pixels.  On the 32-bit
    target a buffer of 2-byte pixels holds fewer than 2^31 of them, so
    every pixel is within reach of an [int] index. *)
Definition rgb565_surface (surface : list Z) (span rows : Z) : Prop :=
  Z.of_nat (length surface) = span * rows /\ span * rows <= CInt.INT_MAX.

(** * The VEU library

    [veu_colorspace.c] and [shveu.h] are not among the sources: the tools
    only call into them.  The definitions of this module follow the
    specification's data model (section 3), geometry engine (4.2) and
    operation state machine (4.3). *)

Module Veu.

(** Modelled from the spec: the [PixelFormat] variants of the library,
    absent with [shveu.h]. *)
Inductive PixelFormat := RGB565 | RGB24 | RGB32 | NV12 | NV16 | Unknown.

Inductive Rotation := NoRotation | Clockwise90.

(** Two silicon revisions; only one of them needs the enlargement
    correction. *)
Inductive HardwareRevision := RevCorrecting | RevPlain.

Inductive Error :=
  | UnsupportedFormat
  | OutOfBounds
  | ZeroSizedRegion
  | RotationScaleConflict
  | InvalidState
  | ResourceUnavailable
  | Timeout.

Inductive result (A : Type) :=
  | Ok (a : A)
  | Err (e : Error).
Arguments Ok {A} a.
Arguments Err {A} e.

Definition is_ok {A} (r : result A) : Prop :=
  match r with Ok _ => True | Err _ => False end.

(** Widths and heights are [u32], positions [i32], addresses opaque. *)
Record Surface := {
  format : PixelFormat;
  width : N;
  height : N;
  luma_base : Z;
  chroma_base : Z
}.

Record Selection := {
  sel_x : Z;
  sel_y : Z;
  sel_width : N;
  sel_height : N
}.

(** A scale ratio [dst / src], kept exact. *)
Record Ratio := { ratio_dst : N; ratio_src : N }.

Definition enlarges (r : Ratio) : bool := (ratio_src r <? ratio_dst r)%N.
Definition reduces (r : Ratio) : bool := (ratio_dst r <? ratio_src r)%N.
Definition pass_through (r : Ratio) : bool := (ratio_dst r =? ratio_src r)%N.

Inductive Mode :=
  | Rotate
  | Scale (horizontal vertical : Ratio).

Record OperationPlan := {
  plan_src : Selection;
  plan_dst : Selection;
  plan_mode : Mode;
  plan_src_planes : Z * Z;
  plan_dst_planes : Z * Z;
  plan_correction : option Z
}.

(** The register arithmetic that the specification leaves to the hardware
    data sheet (section 9): the byte offsets of a selection's top-left
    corner in the two planes (step 7), and the enlargement correction
    factor for a source and a destination rectangle (step 6). *)
Record Datasheet := {
  plane_offsets : Surface -> Selection -> Z * Z;
  correction_factor : Selection -> Selection -> Z
}.

Definition requires_correction (rev : HardwareRevision) : bool :=
  match rev with RevCorrecting => true | RevPlain => false end.

Definition supported (f : PixelFormat) : bool :=
  match f with Unknown => false | _ => true end.

Definition full_extent (s : Surface) : Selection :=
  {| sel_x := 0; sel_y := 0; sel_width := width s; sel_height := height s |}.

(** Steps 1 and 2: the selection if given, else the full surface. *)
Definition effective (s : Surface) (sel : option Selection) : Selection :=
  match sel with Some r => r | None => full_extent s end.

(** Modelled from the spec: step 3 of section 4.2 for one rectangle, part
    of the absent [veu_colorspace.c]; [None] when the rectangle is
    acceptable.  A rectangle without width or height is [ZeroSizedRegion],
    any other violation [OutOfBounds]. *)
Definition check_rect (s : Surface) (r : Selection) : option Error :=
  if ((sel_width r =? 0) || (sel_height r =? 0))%N then Some ZeroSizedRegion
  else if (0 <=? sel_x r) && (0 <=? sel_y r)
          && (sel_x r + Z.of_N (sel_width r) <=? Z.of_N (width s))
          && (sel_y r + Z.of_N (sel_height r) <=? Z.of_N (height s))
  then None
  else Some OutOfBounds.

(** The conditions of section 8 on a rectangle [r] applied to a surface [s]. *)
Definition within (s : Surface) (r : Selection) : Prop :=
  0 <= sel_x r /\ 0 <= sel_y r /\
  sel_x r + Z.of_N (sel_width r) <= Z.of_N (width s) /\
  sel_y r + Z.of_N (sel_height r) <= Z.of_N (height s) /\
  (0 < sel_width r)%N /\ (0 < sel_height r)%N.

Definition zero_sized (r : Selection) : Prop :=
  sel_width r = 0%N \/ sel_height r = 0%N.

(** Step 4's requirement: source and destination sizes match with the
    axes swapped. *)
Definition swapped_sizes (rs rd : Selection) : Prop :=
  sel_width rs = sel_height rd /\ sel_height rs = sel_width rd.

Definition plane_addresses (D : Datasheet) (s : Surface) (r : Selection) : Z * Z :=
  let '(luma, chroma) := plane_offsets D s r in
  (luma_base s + luma, chroma_base s + chroma).

(** Modelled from the spec: [plan_operation] of section 4.2, absent with
    [veu_colorspace.c].  The steps run in the order the section lists
    them. *)
Definition plan_operation (D : Datasheet)
    (src : Surface) (src_selection : option Selection)
    (dst : Surface) (dst_selection : option Selection)
    (rotation : Rotation) (rev : HardwareRevision) : result OperationPlan :=
  let rs := effective src src_selection in
  let rd := effective dst dst_selection in
  match check_rect src rs, check_rect dst rd with
  | Some e, _ => Err e
  | None, Some e => Err e
  | None, None =>
      if negb (supported (format src) && supported (format dst))
      then Err UnsupportedFormat
      else
        match rotation with
        | Clockwise90 =>
            if ((sel_width rs =? sel_height rd) && (sel_height rs =? sel_width rd))%N
            then Ok {| plan_src := rs; plan_dst := rd; plan_mode := Rotate;
                       plan_src_planes := plane_addresses D src rs;
                       plan_dst_planes := plane_addresses D dst rd;
                       plan_correction := None |}
            else Err RotationScaleConflict
        | NoRotation =>
            let hr := {| ratio_dst := sel_width rd; ratio_src := sel_width rs |} in
            let vr := {| ratio_dst := sel_height rd; ratio_src := sel_height rs |} in
            Ok {| plan_src := rs; plan_dst := rd; plan_mode := Scale hr vr;
                  plan_src_planes := plane_addresses D src rs;
                  plan_dst_planes := plane_addresses D dst rd;
                  plan_correction :=
                    if (enlarges hr || enlarges vr) && requires_correction rev
                    then Some (correction_factor D rs rd)
                    else None |}
        end
  end.

(** ** Operation state machine (section 4.3) *)

Inductive JobState := Idle | Configured | Running.

(** The handle with the register state it owns: the configuration
    written, the base addresses of both surfaces, the line count of the
    job in flight and the lines processed since the configuration. *)
Record EngineHandle := {
  revision : HardwareRevision;
  current_config : option OperationPlan;
  job_state : JobState;
  src_base : Z * Z;
  dst_base : Z * Z;
  in_flight : N;
  lines_done : N
}.

Definition open (rev : HardwareRevision) : EngineHandle :=
  {| revision := rev; current_config := None; job_state := Idle;
     src_base := (0, 0); dst_base := (0, 0); in_flight := 0; lines_done := 0 |}.

(** What [wait] reports on success. *)
Inductive Completion := ChunkComplete | FrameComplete.

(** An operation returns its outcome and the handle after it. *)
Definition op (A : Type) : Type := EngineHandle -> result A * EngineHandle.

Definition ret {A} (a : A) : op A := fun h => (Ok a, h).
Definition bind {A B} (m : op A) (k : A -> op B) : op B :=
  fun h => match m h with
           | (Ok a, h') => k a h'
           | (Err e, h') => (Err e, h')
           end.

Notation "'do' x <- m 'in' k" := (bind m (fun x => k))
  (at level 10, x pattern, m at level 100, k at level 200).

(** The number of lines of a frame under a configuration. *)
Definition frame_lines (p : OperationPlan) : N := sel_height (plan_src p).

(** Modelled from the spec: [configure] of section 4.3, absent with
    [veu_colorspace.c].  Valid from [Idle] and [Configured]. *)
Definition configure (p : OperationPlan) : op unit := fun h =>
  match job_state h with
  | Running => (Err InvalidState, h)
  | Idle | Configured =>
      (Ok tt,
       {| revision := revision h; current_config := Some p;
          job_state := Configured;
          src_base := plan_src_planes p; dst_base := plan_dst_planes p;
          in_flight := 0; lines_done := 0 |})
  end.

(** Modelled from the spec: [start] ([shveu_start]), valid only from
    [Configured]; the whole frame is in flight. *)
Definition start : op unit := fun h =>
  match job_state h, current_config h with
  | Configured, Some p =>
      (Ok tt,
       {| revision := revision h; current_config := current_config h;
          job_state := Running;
          src_base := src_base h; dst_base := dst_base h;
          in_flight := frame_lines p; lines_done := 0 |})
  | _, _ => (Err InvalidState, h)
  end.

(** Modelled from the spec: [start_bundle] ([shveu_start_bundle]), valid
    only from [Configured]; [line_count] rows are in flight. *)
Definition start_bundle (line_count : N) : op unit := fun h =>
  match job_state h, current_config h with
  | Configured, Some p =>
      (Ok tt,
       {| revision := revision h; current_config := current_config h;
          job_state := Running;
          src_base := src_base h; dst_base := dst_base h;
          in_flight := line_count; lines_done := lines_done h |})
  | _, _ => (Err InvalidState, h)
  end.

(** Modelled from the spec: [set_source] ([shveu_set_src]) and
    [set_destination] ([shveu_set_dst]), valid only from [Configured]. *)
Definition set_source (luma_addr chroma_addr : Z) : op unit := fun h =>
  match job_state h with
  | Configured =>
      (Ok tt,
       {| revision := revision h; current_config := current_config h;
          job_state := Configured;
          src_base := (luma_addr, chroma_addr); dst_base := dst_base h;
          in_flight := in_flight h; lines_done := lines_done h |})
  | _ => (Err InvalidState, h)
  end.

Definition set_destination (luma_addr chroma_addr : Z) : op unit := fun h =>
  match job_state h with
  | Configured =>
      (Ok tt,
       {| revision := revision h; current_config := current_config h;
          job_state := Configured;
          src_base := src_base h; dst_base := (luma_addr, chroma_addr);
          in_flight := in_flight h; lines_done := lines_done h |})
  | _ => (Err InvalidState, h)
  end.

(** Modelled from the spec: [wait] ([shveu_wait]), valid only from
    [Running].  [signalled] tells whether the hardware signals completion
    before the time bound elapses; the chunk that brings the line count
    to the frame's lines completes the frame. *)
Definition wait (signalled : bool) : op Completion := fun h =>
  match job_state h, current_config h with
  | Running, Some p =>
      if signalled then
        let done := (lines_done h + in_flight h)%N in
        (Ok (if (frame_lines p <=? done)%N then FrameComplete else ChunkComplete),
         {| revision := revision h; current_config := current_config h;
            job_state := Configured;
            src_base := src_base h; dst_base := dst_base h;
            in_flight := 0; lines_done := done |})
      else (Err Timeout, h)
  | _, _ => (Err InvalidState, h)
  end.

(** Modelled from the spec: planning followed by configuration, which is
    what the display tool asks of the absent [shveu_setup]. *)
Definition setup (D : Datasheet)
    (src : Surface) (src_selection : option Selection)
    (dst : Surface) (dst_selection : option Selection)
    (rotation : Rotation) : op unit := fun h =>
  match plan_operation D src src_selection dst dst_selection rotation (revision h) with
  | Ok p => configure p h
  | Err e => (Err e, h)
  end.

(** A data sheet instance to run the model on: selections anchored at the
    plane starts, a unit correction factor. *)
Definition sample_datasheet : Datasheet :=
  {| plane_offsets := fun _ _ => (0, 0); correction_factor := fun _ _ => 1 |}.

(** One bundle cycle: the base addresses of the chunk are set, the chunk
    is started and awaited. *)
Definition bundle_cycle (line_count : N) (signalled : bool) (src dst : Z * Z)
  : op Completion :=
  do _ <- set_source (fst src) (snd src) in
  do _ <- set_destination (fst dst) (snd dst) in
  do _ <- start_bundle line_count in
  wait signalled.

Definition advance (a stride : Z * Z) : Z * Z :=
  (fst a + fst stride, snd a + snd stride).

(** [k] successive cycles; between two cycles both base addresses move on
    by the strides.  The result lists what each [wait] signalled. *)
Fixpoint bundle_cycles (k : nat) (line_count : N) (src_stride dst_stride : Z * Z)
    (src dst : Z * Z) : op (list Completion) :=
  match k with
  | O => ret []
  | S k' =>
      do c <- bundle_cycle line_count true src dst in
      do cs <- bundle_cycles k' line_count src_stride dst_stride
                 (advance src src_stride) (advance dst dst_stride) in
      ret (c :: cs)
  end.

(** The bytes that [n] rows of an NV12 surface of width [w] take in the
    luma and in the chroma plane, as [scale] advances [py] and [pc]. *)
Definition nv12_rows (w n : Z) : Z * Z := (n * w * 1, n * w / 2).

(** The base address of the chunk that follows [j] others. *)
Definition chunk_base (j : nat) (a stride : Z * Z) : Z * Z :=
  (fst a + Z.of_nat j * fst stride, snd a + Z.of_nat j * snd stride).

(** What the [k] waits of a bundled sequence signal, for a frame of
    [total] lines of which [done] are processed and chunks of [n] lines. *)
Fixpoint chunk_signals (total done n : N) (k : nat) : list Completion :=
  match k with
  | O => []
  | S k' =>
      (if (total <=? done + n)%N then FrameComplete else ChunkComplete)
        :: chunk_signals total (done + n) n k'
  end.

Definition vga_nv12 (luma chroma : Z) : Surface :=
  {| format := NV12; width := 640; height := 480;
     luma_base := luma; chroma_base := chroma |}.

(** Two CIF surfaces, one lying and one upright, and a handle with a job
    in flight, to run the model on. *)
Definition cif_rgb565 : Surface :=
  {| format := RGB565; width := 352; height := 288;
     luma_base := 0; chroma_base := 0 |}.

Definition cif_rgb565_upright : Surface :=
  {| format := RGB565; width := 288; height := 352;
     luma_base := 202752; chroma_base := 0 |}.

Definition running_handle : EngineHandle :=
  {| revision := RevPlain; current_config := None; job_state := Running;
     src_base := (0, 0); dst_base := (0, 0); in_flight := 16; lines_done := 0 |}.

End Veu.

(** ** Output size defaults of shveu-convert's [main]

    [if (dst.w == -1 && dst.h == -1)] the output size is that of the
    input, width and height swapped when rotating. *)

Module Convert.

Import Veu.

Definition default_output_size (rotation : Rotation) (src_w src_h dst_w dst_h : Z)
  : Z * Z :=
  if (dst_w =? -1) && (dst_h =? -1) then
    match rotation with
    | NoRotation => (src_w, src_h)
    | Clockwise90 => (src_h, src_w)
    end
  else (dst_w, dst_h).

(** The surfaces handed to [shveu_rotate] or [shveu_resize]. *)
Definition surface_of (f : PixelFormat) (w h py pc : Z) : Surface :=
  {| format := f; width := Z.to_N w; height := Z.to_N h;
     luma_base := py; chroma_base := pc |}.

End Convert.

(** ** The bundled loop of [scale] (shveu-display.c, [#ifdef BUNDLE]) *)

Module Display.

Import Veu.

(** [unsigned long] arithmetic of the 32-bit target. *)
Definition ulong (z : Z) : Z := z mod 4294967296.

Record cursor := { py : Z; pc : Z; bb_virt : Z }.

(** Modelled from the spec: the [int] that [shveu_wait] hands to the loop.
    It is [0] until the chunk that completes the frame has been awaited. *)
Definition wait_status (r : result Completion) : Z :=
  match r with
  | Ok ChunkComplete => 0
  | Ok FrameComplete => 1
  | Err _ => -1
  end.

(** [while (end == 0) { ... }]: the results of [shveu_set_src],
    [shveu_set_dst] and [shveu_start_bundle] are dropped, that of
    [shveu_wait] is the loop condition.  [fuel] bounds the iterations. *)
Fixpoint scale_bundle (fuel : nat) (signalled : bool) (w lcd_w : Z)
    (c : cursor) (veu : EngineHandle) : option (cursor * EngineHandle) :=
  match fuel with
  | O => None
  | S fuel' =>
      let nr_lines := 16 in
      let veu1 := snd (set_source (py c) (pc c) veu) in
      let veu2 := snd (set_destination (bb_virt c) 0 veu1) in
      let c' := {| py := py c + ulong (ulong (nr_lines * w) * 1);
                   pc := pc c + ulong (ulong (nr_lines * w) ÷ 2);
                   bb_virt := bb_virt c + CInt.mul (CInt.mul nr_lines lcd_w) 2 |} in
      let veu3 := snd (start_bundle (Z.to_N nr_lines) veu2) in
      let '(r, veu4) := wait signalled veu3 in
      if wait_status r =? 0
      then scale_bundle fuel' signalled w lcd_w c' veu4
      else Some (c', veu4)
  end.

(** The cursor after [k] iterations of the loop body. *)
Definition cursor_after (k : nat) (w lcd_w : Z) (c : cursor) : cursor :=
  {| py := py c + Z.of_nat k * ulong (ulong (16 * w) * 1);
     pc := pc c + Z.of_nat k * ulong (ulong (16 * w) ÷ 2);
     bb_virt := bb_virt c + Z.of_nat k * CInt.mul (CInt.mul 16 lcd_w) 2 |}.

(** The handle after an iteration that started from cursor [c]. *)
Definition handle_after (c : cursor) (done : N) (veu : EngineHandle) : EngineHandle :=
  {| revision := revision veu; current_config := current_config veu;
     job_state := Configured;
     src_base := (py c, pc c); dst_base := (bb_virt c, 0);
     in_flight := 0; lines_done := done |}.

End Display.

(** * Properties of the tools' code *)

(** ** [int] arithmetic without overflow *)

Lemma wrap_id z : CInt.in_range z -> CInt.wrap z = z.
Proof.
  unfold CInt.in_range, CInt.wrap, CInt.INT_MIN, CInt.INT_MAX. intros Hz.
  rewrite Z.mod_small by lia. lia.
Qed.

Lemma wrap_range z : CInt.in_range (CInt.wrap z).
Proof.
  unfold CInt.in_range, CInt.wrap, CInt.INT_MIN, CInt.INT_MAX.
  pose proof (Z.mod_pos_bound (z + 2147483648) 4294967296 eq_refl). lia.
Qed.

Lemma mul_exact a b : 0 <= a * b <= CInt.INT_MAX -> CInt.mul a b = a * b.
Proof.
  intros H. apply wrap_id. unfold CInt.in_range, CInt.INT_MIN, CInt.INT_MAX in *. lia.
Qed.

Lemma div_exact a b : 0 <= a <= CInt.INT_MAX -> 0 < b -> CInt.div a b = a ÷ b.
Proof.
  intros Ha Hb. apply wrap_id.
  unfold CInt.in_range, CInt.INT_MIN, CInt.INT_MAX in *.
  rewrite Z.quot_div_nonneg by lia.
  pose proof (Z.div_pos a b ltac:(lia) Hb).
  pose proof (Z.div_le_upper_bound a b 2147483647 Hb ltac:(nia)). lia.
Qed.

(** A frame of positive size whose bytes, [n] to the pixel, fit an [int]. *)
Lemma scaled_product_exact w h n d :
  0 < w -> 0 < h -> 0 < n -> 0 < d -> w * h * n <= CInt.INT_MAX ->
  CInt.div (CInt.mul (CInt.mul w h) n) d = w * h * n ÷ d.
Proof.
  intros Hw Hh Hn Hd Hfit.
  assert (0 < w * h) by lia.
  assert (w * h <= w * h * n) by nia.
  rewrite (mul_exact w h) by lia.
  rewrite mul_exact by lia.
  apply div_exact; lia.
Qed.

(** ** The format switch *)

Lemma distinct_formats_neq F :
  distinct_formats F ->
  SH_RGB565 F <> SH_RGB24 F /\ SH_RGB565 F <> SH_RGB32 F /\
  SH_RGB565 F <> SH_NV12 F /\ SH_RGB565 F <> SH_NV16 F /\
  SH_RGB24 F <> SH_RGB32 F /\ SH_RGB24 F <> SH_NV12 F /\
  SH_RGB24 F <> SH_NV16 F /\ SH_RGB32 F <> SH_NV12 F /\
  SH_RGB32 F <> SH_NV16 F /\ SH_NV12 F <> SH_NV16 F /\
  SH_UNKNOWN F ∉ enumerated F.
Proof.
  unfold distinct_formats, enumerated.
  rewrite !NoDup_cons, !not_elem_of_cons. intuition congruence.
Qed.

Lemma shveu_h_distinct : distinct_formats shveu_h.
Proof.
  unfold distinct_formats, enumerated, shveu_h; simpl.
  rewrite !NoDup_cons, !not_elem_of_cons.
  repeat split; try discriminate; try apply not_elem_of_nil; apply NoDup_nil_2.
Qed.

(** Decides every comparison of the [switch] from the inequalities of the
    enumerators. *)
Ltac switch_cases :=
  repeat match goal with
         | |- context [Z.eqb ?a ?b] => destruct (Z.eqb_spec a b); simpl
         end;
  try congruence.

Lemma imgsize_switch_table F :
  distinct_formats F ->
  imgsize_switch F (SH_RGB565 F) = Some (2, 1) /\
  imgsize_switch F (SH_NV16 F) = Some (2, 1) /\
  imgsize_switch F (SH_RGB24 F) = Some (3, 1) /\
  imgsize_switch F (SH_RGB32 F) = Some (4, 1) /\
  imgsize_switch F (SH_NV12 F) = Some (3, 2).
Proof.
  intros HF. apply distinct_formats_neq in HF.
  destruct HF as (?&?&?&?&?&?&?&?&?&?&?).
  unfold imgsize_switch. repeat split; switch_cases.
Qed.

Lemma imgsize_switch_default F c :
  c ∉ enumerated F -> imgsize_switch F c = None.
Proof.
  unfold enumerated. rewrite !not_elem_of_cons. intros (?&?&?&?&?&?).
  unfold imgsize_switch. switch_cases.
Qed.

(** ** [imgsize] *)

(** Whatever the arguments, the value returned is that of an [int]
    expression, or -1. *)
Lemma imgsize_in_int_range F c w h : CInt.in_range (imgsize F c w h).
Proof.
  unfold imgsize. destruct (imgsize_switch F c) as [[n d]|].
  - apply wrap_range.
  - unfold CInt.in_range, CInt.INT_MIN, CInt.INT_MAX. lia.
Qed.

(** C1 (amended): for positive [w] and [h] whose byte count [w*h*n] fits a
    32-bit [int], [imgsize] returns [w*h*2] for RGB565 and NV16, [w*h*3]
    for RGB24, [w*h*4] for RGB32 and the truncated [w*h*3/2] for NV12. *)
Theorem imgsize_exact_when_fits F w h :
  distinct_formats F -> 0 < w -> 0 < h ->
  (w * h * 2 <= CInt.INT_MAX ->
   imgsize F (SH_RGB565 F) w h = w * h * 2 /\
   imgsize F (SH_NV16 F) w h = w * h * 2) /\
  (w * h * 3 <= CInt.INT_MAX ->
   imgsize F (SH_RGB24 F) w h = w * h * 3 /\
   imgsize F (SH_NV12 F) w h = w * h * 3 ÷ 2) /\
  (w * h * 4 <= CInt.INT_MAX ->
   imgsize F (SH_RGB32 F) w h = w * h * 4).
Proof.
  intros HF Hw Hh.
  destruct (imgsize_switch_table F HF) as (E565 & E16 & E24 & E32 & E12).
  unfold imgsize. rewrite E565, E16, E24, E32, E12.
  split; [|split]; intros Hfit; repeat split;
    rewrite scaled_product_exact by lia;
    try apply Z.quot_1_r; reflexivity.
Qed.

Lemma imgsize_exact_when_fits_witness :
  distinct_formats shveu_h /\ 0 < 640 /\ 0 < 480 /\
  imgsize shveu_h (SH_NV12 shveu_h) 640 480 = 640 * 480 * 3 ÷ 2.
Proof.
  split; [exact shveu_h_distinct|]. split; [lia|]. split; [lia|].
  destruct (imgsize_exact_when_fits shveu_h 640 480 shveu_h_distinct) as (_ & H & _);
    [lia | lia |].
  apply H. unfold CInt.INT_MAX. lia.
Defined.

(** C1 as stated fails where the product leaves the [int] range: a
    65536 x 65536 RGB565 frame has 2^33 bytes, [imgsize] returns 0. *)
Lemma imgsize_wraps_around :
  0 < 65536 /\
  imgsize shveu_h (SH_RGB565 shveu_h) 65536 65536 = 0 /\
  imgsize shveu_h (SH_RGB565 shveu_h) 65536 65536 <> 65536 * 65536 * 2.
Proof. split; [lia|]. split; [reflexivity | discriminate]. Qed.

(** C3: for the unknown sentinel and for every value outside the five
    enumerated formats, [imgsize] returns -1, whatever the dimensions. *)
Theorem imgsize_unsupported F c w h :
  distinct_formats F ->
  c = SH_UNKNOWN F \/ c ∉ enumerated F ->
  imgsize F c w h = -1.
Proof.
  intros HF Hc.
  assert (Hout : c ∉ enumerated F).
  { destruct Hc as [-> | Hc]; [|exact Hc].
    apply distinct_formats_neq in HF. tauto. }
  unfold imgsize. rewrite (imgsize_switch_default F c Hout). reflexivity.
Qed.

Lemma imgsize_unsupported_witness :
  distinct_formats shveu_h /\
  imgsize shveu_h (SH_UNKNOWN shveu_h) 640 480 = -1.
Proof.
  split; [exact shveu_h_distinct|].
  apply imgsize_unsupported; [exact shveu_h_distinct | left; reflexivity].
Defined.

(** ** Chroma plane placement *)

(** C2 (amended): for positive [w] and [h] whose product fits an [int],
    both tools place the chroma plane of an NV12 or NV16 buffer [w*h] bytes
    after its start, and shveu-convert stores the null chroma pointer,
    offset 0, for RGB565. *)
Theorem chroma_plane_placement F py w h :
  distinct_formats F -> 0 < w -> 0 < h -> w * h <= CInt.INT_MAX ->
  (convert_pc F (SH_NV12 F) py w h = py + w * h /\
   convert_pc F (SH_NV16 F) py w h = py + w * h /\
   display_pc py w h = py + w * h) /\
  (chroma_offset F (SH_NV12 F) w h = w * h /\
   chroma_offset F (SH_NV16 F) w h = w * h) /\
  (convert_pc F (SH_RGB565 F) py w h = 0 /\
   chroma_offset F (SH_RGB565 F) w h = 0).
Proof.
  intros HF Hw Hh Hfit.
  apply distinct_formats_neq in HF. destruct HF as (?&?&?&?&?&?&?&?&?&?&?).
  assert (E : CInt.mul w h = w * h) by (apply mul_exact; lia).
  unfold convert_pc, display_pc, chroma_offset. rewrite E.
  repeat split; switch_cases.
Qed.

Lemma chroma_plane_placement_witness :
  distinct_formats shveu_h /\ 0 < 640 /\ 0 < 480 /\ 640 * 480 <= CInt.INT_MAX /\
  convert_pc shveu_h (SH_NV12 shveu_h) 4096 640 480 = 4096 + 640 * 480.
Proof.
  split; [exact shveu_h_distinct|].
  assert (Hfit : 640 * 480 <= CInt.INT_MAX) by (unfold CInt.INT_MAX; lia).
  repeat (split; [first [lia | exact Hfit]|]).
  destruct (chroma_plane_placement shveu_h 4096 640 480 shveu_h_distinct)
    as ((H & _) & _); [lia | lia | exact Hfit |].
  exact H.
Defined.

(** C2 as stated fails for RGB24: shveu-convert tests for RGB565 only, so
    the chroma pointer of a 640 x 480 RGB24 buffer is set 307200 bytes
    into the buffer, not to 0.  It also fails where [w*h] leaves the [int]
    range: for a 65536 x 65536 NV12 surface the offset added is 0. *)
Lemma chroma_pointer_rgb24_not_null :
  (0 < 640 /\ 0 < 480 /\
   convert_pc shveu_h (SH_RGB24 shveu_h) 4096 640 480 = 4096 + 307200 /\
   chroma_offset shveu_h (SH_RGB24 shveu_h) 640 480 = 307200 /\
   chroma_offset shveu_h (SH_RGB24 shveu_h) 640 480 <> 0) /\
  (0 < 65536 /\
   chroma_offset shveu_h (SH_NV12 shveu_h) 65536 65536 = 0 /\
   chroma_offset shveu_h (SH_NV12 shveu_h) 65536 65536 <> 65536 * 65536).
Proof. repeat split; try lia; try reflexivity; discriminate. Qed.

(** What the [else] branch does for the two other RGB formats. *)
Lemma convert_pc_rgb24_rgb32 F py w h :
  distinct_formats F ->
  convert_pc F (SH_RGB24 F) py w h = py + CInt.mul w h /\
  convert_pc F (SH_RGB32 F) py w h = py + CInt.mul w h.
Proof.
  intros HF. apply distinct_formats_neq in HF.
  destruct HF as (?&?&?&?&?&?&?&?&?&?&?).
  unfold convert_pc. split; switch_cases.
Qed.

(** C7 (amended): for every supported format and positive [w] and [h]
    whose byte count [w*h*n] fits an [int], the chroma offset plus the
    chroma plane size is at most the total that [imgsize] returns; for
    NV12 the truncated total is met exactly. *)
Theorem chroma_plane_within_total F c w h :
  distinct_formats F -> c ∈ enumerated F -> 0 < w -> 0 < h ->
  frame_fits F c w h ->
  chroma_offset F c w h + chroma_plane_size F c w h <= imgsize F c w h.
Proof.
  intros HF Hc Hw Hh Hfit.
  destruct (imgsize_switch_table F HF) as (E565 & E16 & E24 & E32 & E12).
  pose proof (distinct_formats_neq F HF) as (?&?&?&?&?&?&?&?&?&?&?).
  assert (0 < w * h) by lia.
  unfold enumerated in Hc. rewrite !elem_of_cons, elem_of_nil in Hc.
  unfold frame_fits in Hfit. unfold imgsize.
  destruct Hc as [-> | [-> | [-> | [-> | [-> | []]]]]];
    [rewrite E565 in * | rewrite E24 in * | rewrite E32 in *
    | rewrite E12 in * | rewrite E16 in *];
    rewrite scaled_product_exact by lia;
    rewrite Z.quot_div_nonneg by lia;
    unfold chroma_offset, chroma_plane_size;
    switch_cases;
    try (rewrite mul_exact by lia);
    Z.to_euclidean_division_equations; lia.
Qed.

Lemma chroma_plane_within_total_witness :
  distinct_formats shveu_h /\ SH_NV12 shveu_h ∈ enumerated shveu_h /\
  0 < 3 /\ 0 < 3 /\ frame_fits shveu_h (SH_NV12 shveu_h) 3 3 /\
  chroma_offset shveu_h (SH_NV12 shveu_h) 3 3
    + chroma_plane_size shveu_h (SH_NV12 shveu_h) 3 3
  <= imgsize shveu_h (SH_NV12 shveu_h) 3 3.
Proof.
  assert (Hin : SH_NV12 shveu_h ∈ enumerated shveu_h).
  { unfold enumerated. rewrite !elem_of_cons. right; right; right; left. reflexivity. }
  assert (Hfit : frame_fits shveu_h (SH_NV12 shveu_h) 3 3).
  { unfold frame_fits; simpl. unfold CInt.INT_MAX. lia. }
  split; [exact shveu_h_distinct|]. split; [exact Hin|].
  split; [lia|]. split; [lia|]. split; [exact Hfit|].
  apply chroma_plane_within_total;
    [exact shveu_h_distinct | exact Hin | lia | lia | exact Hfit].
Defined.

(** C7 as stated fails where the total wraps around: for a 32768 x 32768
    NV16 frame the chroma plane ends at 2^31, [imgsize] returns -2^31. *)
Lemma chroma_plane_beyond_wrapped_total :
  0 < 32768 /\
  imgsize shveu_h (SH_NV16 shveu_h) 32768 32768 = -2147483648 /\
  ~ (chroma_offset shveu_h (SH_NV16 shveu_h) 32768 32768
       + chroma_plane_size shveu_h (SH_NV16 shveu_h) 32768 32768
     <= imgsize shveu_h (SH_NV16 shveu_h) 32768 32768).
Proof.
  split; [lia|]. split; [reflexivity|].
  vm_compute. intros H. apply H. reflexivity.
Qed.

(** ** [draw_rect_rgb565] *)

Lemma store_in_range (m : list Z) pix color :
  0 <= pix < Z.of_nat (length m) ->
  store m pix color = Some (<[Z.to_nat pix := color]> m).
Proof.
  intros H. unfold store.
  destruct (Z.leb_spec 0 pix); [|lia].
  destruct (Z.ltb_spec pix (Z.of_nat (length m))); [|lia].
  reflexivity.
Qed.

(** The inner loop writes [n] consecutive pixels from [pix] on. *)
Lemma fill_row_spec n : forall color pix (m : list Z),
  0 <= pix -> pix + Z.of_nat n <= Z.of_nat (length m) ->
  exists m',
    fill_row n color pix m = Some (pix + Z.of_nat n, m') /\
    length m' = length m /\
    forall i : nat,
      m' !! i = if (pix <=? Z.of_nat i) && (Z.of_nat i <? pix + Z.of_nat n)
                then Some color else m !! i.
Proof.
  induction n as [|n IH]; intros color pix m Hpix Hlen.
  - exists m. simpl. rewrite Z.add_0_r. repeat split.
    intros i. destruct (Z.leb_spec pix (Z.of_nat i)), (Z.ltb_spec (Z.of_nat i) pix);
      simpl; try reflexivity; lia.
  - simpl fill_row. rewrite store_in_range by lia.
    destruct (IH color (pix + 1) (<[Z.to_nat pix := color]> m)) as (m' & Hrun & Hl & Hget).
    { lia. }
    { rewrite length_insert. lia. }
    exists m'. split; [|split].
    + rewrite Hrun. f_equal. f_equal. lia.
    + rewrite Hl. apply length_insert.
    + intros i. rewrite Hget.
      destruct (Z.leb_spec (pix + 1) (Z.of_nat i)),
               (Z.ltb_spec (Z.of_nat i) (pix + 1 + Z.of_nat n)),
               (Z.leb_spec pix (Z.of_nat i)),
               (Z.ltb_spec (Z.of_nat i) (pix + Z.of_nat (S n)));
        simpl; try reflexivity; try lia.
      all: destruct (decide (i = Z.to_nat pix)) as [-> | Hne];
        [ rewrite list_lookup_insert_eq by lia; first [reflexivity | lia]
        | rewrite list_lookup_insert_ne by lia; first [reflexivity | lia] ].
Qed.

(** The pixels [pix .. pix+w-1] of the row that starts at [yy*span + x]
    are those of row [yy] between the columns [x] and [x+w-1]. *)
Lemma row_index_iff span x w yy r c :
  0 <= x -> 0 <= w -> x + w <= span -> 0 <= c < span -> 0 <= r -> 0 <= yy ->
  (yy * span + x <= r * span + c < yy * span + x + w) <->
  (r = yy /\ x <= c < x + w).
Proof.
  intros Hx Hw Hspan Hc Hr Hyy. split.
  - intros [Hlo Hhi].
    assert (r = yy) as ->; [|lia].
    destruct (Z.lt_trichotomy r yy) as [Hlt | [Heq | Hgt]]; [|exact Heq|].
    + pose proof (Z.mul_le_mono_nonneg_r (r + 1) yy span ltac:(lia) ltac:(lia)). lia.
    + pose proof (Z.mul_le_mono_nonneg_r (yy + 1) r span ltac:(lia) ltac:(lia)). lia.
  - intros [-> Hcol]. lia.
Qed.

(** The outer loop, entered at row [yy] with [n] rows to go. *)
Lemma fill_rows_spec color x w span rows n : forall yy (m : list Z),
  rgb565_surface m span rows ->
  0 <= x -> 0 <= w -> x + w <= span -> 0 <= yy -> yy + Z.of_nat n <= rows ->
  exists m',
    fill_rows n color w span (yy * span + x) m = Some m' /\
    length m' = length m /\
    forall r c, 0 <= r -> 0 <= c < span ->
      pixel m' span r c =
        if in_rect x yy w (Z.of_nat n) r c then Some color else pixel m span r c.
Proof.
  induction n as [|n IH]; intros yy m [Hlen Hmax] Hx Hw Hxw Hyy Hrows.
  - exists m. repeat split. intros r c Hr Hc. unfold in_rect.
    destruct (Z.leb_spec yy r), (Z.ltb_spec r (yy + Z.of_nat 0)); simpl;
      try reflexivity; lia.
  - assert (Hrow : (yy + 1) * span <= rows * span)
      by (apply Z.mul_le_mono_nonneg_r; lia).
    assert (Hyspan : 0 <= yy * span) by (apply Z.mul_nonneg_nonneg; lia).
    simpl fill_rows.
    destruct (fill_row_spec (Z.to_nat w) color (yy * span + x) m)
      as (m1 & Hrun & Hl1 & Hget1); [lia | lia |].
    rewrite Hrun.
    assert (Hsub : CInt.sub span w = span - w).
    { apply wrap_id. unfold CInt.in_range, CInt.INT_MIN, CInt.INT_MAX in *. nia. }
    rewrite Hsub.
    replace (yy * span + x + Z.of_nat (Z.to_nat w) + (span - w))
      with ((yy + 1) * span + x) by lia.
    destruct (IH (yy + 1) m1) as (m' & Hrest & Hl & Hget);
      [split; [rewrite Hl1; exact Hlen | exact Hmax] | lia .. |].
    exists m'. split; [exact Hrest|]. split; [congruence|].
    intros r c Hr Hc. rewrite (Hget r c Hr Hc). unfold pixel.
    rewrite Hget1.
    assert (Hidx : 0 <= r * span + c) by nia.
    rewrite (Z2Nat.id _ Hidx), (Z2Nat.id _ Hw).
    pose proof (row_index_iff span x w yy r c Hx Hw Hxw Hc Hr Hyy) as Hiff.
    unfold in_rect.
    destruct (Z.leb_spec (yy * span + x) (r * span + c)),
             (Z.ltb_spec (r * span + c) (yy * span + x + w)),
             (Z.leb_spec (yy + 1) r), (Z.ltb_spec r (yy + 1 + Z.of_nat n)),
             (Z.leb_spec yy r), (Z.ltb_spec r (yy + Z.of_nat (S n))),
             (Z.leb_spec x c), (Z.ltb_spec c (x + w));
      simpl; try reflexivity; lia.
Qed.

(** C10: on an RGB565 surface of row span [span], [draw_rect_rgb565] with
    an in-bounds rectangle returns normally, sets the pixels of rows
    [y..y+h-1] and columns [x..x+w-1] to [color] and leaves every other
    pixel of the surface as it was. *)
Theorem draw_rect_rgb565_frame (surface : list Z) color x y w h span rows :
  rgb565_surface surface span rows ->
  rect_in_bounds x y w h span rows ->
  exists surface',
    draw_rect_rgb565 surface color x y w h span = Some surface' /\
    length surface' = length surface /\
    forall r c, 0 <= r < rows -> 0 <= c < span ->
      pixel surface' span r c =
        if in_rect x y w h r c then Some color else pixel surface span r c.
Proof.
  intros Hs (Hx & Hy & Hw & Hh & Hxw & Hyh).
  pose proof Hs as [Hlen Hmax].
  unfold draw_rect_rgb565.
  assert (Hmul : CInt.mul y span = y * span).
  { apply mul_exact.
    assert (0 <= span) by lia.
    pose proof (Z.mul_le_mono_nonneg_r y rows span ltac:(lia) ltac:(lia)).
    nia. }
  rewrite Hmul.
  destruct (fill_rows_spec color x w span rows (Z.to_nat h) y surface)
    as (m' & Hrun & Hl & Hget); try assumption; try lia.
  exists m'. split; [exact Hrun|]. split; [exact Hl|].
  intros r c Hr Hc. rewrite Hget by lia. rewrite Z2Nat.id by lia. reflexivity.
Qed.

Lemma draw_rect_rgb565_frame_witness :
  rgb565_surface [1; 2; 3; 4; 5; 6; 7; 8; 9; 10; 11; 12] 4 3 /\
  rect_in_bounds 1 1 2 2 4 3 /\
  exists surface',
    draw_rect_rgb565 [1; 2; 3; 4; 5; 6; 7; 8; 9; 10; 11; 12] 63488 1 1 2 2 4
      = Some surface' /\
    length surface' = 12%nat /\
    forall r c, 0 <= r < 3 -> 0 <= c < 4 ->
      pixel surface' 4 r c =
        if in_rect 1 1 2 2 r c then Some 63488
        else pixel [1; 2; 3; 4; 5; 6; 7; 8; 9; 10; 11; 12] 4 r c.
Proof.
  assert (Hs : rgb565_surface [1; 2; 3; 4; 5; 6; 7; 8; 9; 10; 11; 12] 4 3).
  { split; [reflexivity | unfold CInt.INT_MAX; lia]. }
  assert (Hr : rect_in_bounds 1 1 2 2 4 3) by (unfold rect_in_bounds; lia).
  split; [exact Hs|]. split; [exact Hr|].
  exact (draw_rect_rgb565_frame _ 63488 1 1 2 2 4 3 Hs Hr).
Defined.

(** The same call, run: the 2 x 2 block in the middle takes the colour. *)
Example draw_rect_rgb565_run :
  draw_rect_rgb565 [1; 2; 3; 4; 5; 6; 7; 8; 9; 10; 11; 12] 63488 1 1 2 2 4
  = Some [1; 2; 3; 4; 5; 63488; 63488; 8; 9; 63488; 63488; 12].
Proof. reflexivity. Qed.

(** * Properties of the library model *)

Module VeuFacts.

Import Veu.

(** ** Geometry validation *)

Lemma check_rect_accepts s r : check_rect s r = None <-> within s r.
Proof.
  unfold check_rect, within.
  destruct (N.eqb_spec (sel_width r) 0), (N.eqb_spec (sel_height r) 0); simpl;
    try (split; [discriminate | lia]).
  destruct (Z.leb_spec 0 (sel_x r)), (Z.leb_spec 0 (sel_y r)),
    (Z.leb_spec (sel_x r + Z.of_N (sel_width r)) (Z.of_N (width s))),
    (Z.leb_spec (sel_y r + Z.of_N (sel_height r)) (Z.of_N (height s)));
    simpl; split; try discriminate; try lia; reflexivity.
Qed.

Lemma check_rect_rejects s r e :
  check_rect s r = Some e ->
  (e = ZeroSizedRegion /\ zero_sized r) \/ (e = OutOfBounds /\ ~ zero_sized r).
Proof.
  unfold check_rect, zero_sized.
  destruct (N.eqb_spec (sel_width r) 0), (N.eqb_spec (sel_height r) 0); simpl;
    try (intros [= <-]; left; split; [reflexivity | tauto]).
  destruct (_ && _); [discriminate|].
  intros [= <-]. right. split; [reflexivity | tauto].
Qed.

(** A geometry error leaves [setup] without effect on the handle. *)
Lemma setup_plan_error D src ss dst ds rot h e :
  plan_operation D src ss dst ds rot (revision h) = Err e ->
  setup D src ss dst ds rot h = (Err e, h).
Proof. intros H. unfold setup. rewrite H. reflexivity. Qed.

(** Planning never depends on the revision for its verdict. *)
Lemma plan_operation_verdict D src ss dst ds rot rev rev' e :
  plan_operation D src ss dst ds rot rev = Err e ->
  plan_operation D src ss dst ds rot rev' = Err e.
Proof.
  unfold plan_operation.
  destruct (check_rect src (effective src ss)); [exact id|].
  destruct (check_rect dst (effective dst ds)); [exact id|].
  destruct (negb _); [exact id|].
  destruct rot; [discriminate|].
  destruct (_ && _)%N; [discriminate | exact id].
Qed.

(** The verdict of [plan_operation] on supported formats. *)
Lemma plan_operation_ok_iff D src ss dst ds rot rev :
  supported (format src) = true -> supported (format dst) = true ->
  is_ok (plan_operation D src ss dst ds rot rev) <->
  within src (effective src ss) /\ within dst (effective dst ds) /\
  (rot = Clockwise90 -> swapped_sizes (effective src ss) (effective dst ds)).
Proof.
  intros Hs Hd. unfold plan_operation. rewrite Hs, Hd. simpl negb. cbv iota.
  rewrite <- !check_rect_accepts.
  destruct (check_rect src (effective src ss));
    [simpl; split; [tauto | intros (? & ? & ?); discriminate]|].
  destruct (check_rect dst (effective dst ds));
    [simpl; split; [tauto | intros (? & ? & ?); discriminate]|].
  destruct rot; simpl.
  - split; [intros _; repeat split; discriminate | tauto].
  - unfold swapped_sizes.
    destruct (N.eqb_spec (sel_width (effective src ss)) (sel_height (effective dst ds))),
             (N.eqb_spec (sel_height (effective src ss)) (sel_width (effective dst ds)));
      simpl; split; try tauto; intros (_ & _ & H); destruct (H eq_refl); congruence.
Qed.

Lemma rejected_rect_error s r :
  ~ within s r ->
  exists e, check_rect s r = Some e /\
            (e = OutOfBounds \/ e = ZeroSizedRegion) /\
            (e = ZeroSizedRegion -> zero_sized r).
Proof.
  intros Hnot. destruct (check_rect s r) as [e|] eqn:E.
  - exists e. split; [reflexivity|].
    destruct (check_rect_rejects s r e E) as [[-> Hz] | [-> Hz]].
    + split; [right; reflexivity | intros _; exact Hz].
    + split; [left; reflexivity | discriminate].
  - apply check_rect_accepts in E. contradiction.
Qed.

(** C4: with supported formats and no rotation, [plan_operation] succeeds
    exactly when each effective rectangle has non-negative position,
    positive size and lies inside its surface.  With any rotation, a
    violation yields [OutOfBounds], or [ZeroSizedRegion] which only a
    rectangle of zero width or height gets, and [setup] then returns the
    error with the handle, hence every register, untouched. *)
Theorem plan_operation_selection_bounds D src ss dst ds rot rev :
  supported (format src) = true -> supported (format dst) = true ->
  (is_ok (plan_operation D src ss dst ds NoRotation rev) <->
   within src (effective src ss) /\ within dst (effective dst ds)) /\
  (~ (within src (effective src ss) /\ within dst (effective dst ds)) ->
   exists e,
     (e = OutOfBounds \/ e = ZeroSizedRegion) /\
     (e = ZeroSizedRegion ->
      zero_sized (effective src ss) \/ zero_sized (effective dst ds)) /\
     plan_operation D src ss dst ds rot rev = Err e /\
     forall h, revision h = rev -> setup D src ss dst ds rot h = (Err e, h)).
Proof.
  intros Hs Hd. split.
  - rewrite (plan_operation_ok_iff D src ss dst ds NoRotation rev Hs Hd).
    split; [tauto|].
    intros [? ?]. split; [assumption|]. split; [assumption | discriminate].
  - intros Hviol.
    assert (Hplan : exists e,
      (e = OutOfBounds \/ e = ZeroSizedRegion) /\
      (e = ZeroSizedRegion ->
       zero_sized (effective src ss) \/ zero_sized (effective dst ds)) /\
      plan_operation D src ss dst ds rot rev = Err e).
    { unfold plan_operation.
      destruct (check_rect src (effective src ss)) as [e|] eqn:Es.
      - destruct (rejected_rect_error src (effective src ss)) as (e' & E & Hk & Hz).
        { intros Hin. apply check_rect_accepts in Hin. congruence. }
        assert (e' = e) as -> by congruence.
        exists e. repeat split; [exact Hk | intros He; left; exact (Hz He)].
      - apply check_rect_accepts in Es.
        destruct (rejected_rect_error dst (effective dst ds)) as (e & E & Hk & Hz).
        { tauto. }
        rewrite E. exists e.
        repeat split; [exact Hk | intros He; right; exact (Hz He)]. }
    destruct Hplan as (e & Hk & Hz & Hplan).
    exists e. repeat split; try assumption.
    intros h <-. apply setup_plan_error. exact Hplan.
Qed.

Lemma plan_operation_selection_bounds_witness :
  supported (format (vga_nv12 0 307200)) = true /\
  ~ is_ok (plan_operation sample_datasheet
             (vga_nv12 0 307200) None
             (vga_nv12 460800 768000)
             (Some {| sel_x := 8; sel_y := 0; sel_width := 640; sel_height := 480 |})
             NoRotation RevPlain).
Proof.
  split; [reflexivity|].
  intros Hok.
  apply (plan_operation_selection_bounds sample_datasheet
           (vga_nv12 0 307200) None (vga_nv12 460800 768000)
           (Some {| sel_x := 8; sel_y := 0; sel_width := 640; sel_height := 480 |})
           NoRotation RevPlain eq_refl eq_refl) in Hok.
  destruct Hok as (_ & _ & _ & H & _). simpl in H. lia.
Defined.

(** The destination selection of the previous lemma, moved back to the
    origin, is accepted; moved 8 pixels right it is out of bounds. *)
Example plan_operation_bounds_run :
  is_ok (plan_operation sample_datasheet (vga_nv12 0 307200) None
           (vga_nv12 460800 768000)
           (Some {| sel_x := 0; sel_y := 0; sel_width := 640; sel_height := 480 |})
           NoRotation RevPlain) /\
  plan_operation sample_datasheet (vga_nv12 0 307200) None
    (vga_nv12 460800 768000)
    (Some {| sel_x := 8; sel_y := 0; sel_width := 640; sel_height := 480 |})
    NoRotation RevPlain = Err OutOfBounds /\
  plan_operation sample_datasheet (vga_nv12 0 307200) None
    (vga_nv12 460800 768000)
    (Some {| sel_x := 0; sel_y := 0; sel_width := 0; sel_height := 480 |})
    NoRotation RevPlain = Err ZeroSizedRegion.
Proof. repeat split. Qed.

(** ** Rotation *)

(** C5: with [Clockwise90], [plan_operation] succeeds only if the effective
    source width equals the effective destination height and the source
    height the destination width.  A mismatch never yields a plan, and on
    a request that is valid otherwise it yields [RotationScaleConflict],
    which [setup] returns with the handle untouched. *)
Theorem rotation_excludes_scaling D src ss dst ds rev :
  (is_ok (plan_operation D src ss dst ds Clockwise90 rev) ->
   swapped_sizes (effective src ss) (effective dst ds)) /\
  (~ swapped_sizes (effective src ss) (effective dst ds) ->
   ~ is_ok (plan_operation D src ss dst ds Clockwise90 rev) /\
   (supported (format src) = true -> supported (format dst) = true ->
    within src (effective src ss) -> within dst (effective dst ds) ->
    plan_operation D src ss dst ds Clockwise90 rev = Err RotationScaleConflict /\
    forall h, revision h = rev ->
      setup D src ss dst ds Clockwise90 h = (Err RotationScaleConflict, h))).
Proof.
  assert (Honly : is_ok (plan_operation D src ss dst ds Clockwise90 rev) ->
                  swapped_sizes (effective src ss) (effective dst ds)).
  { unfold plan_operation, swapped_sizes.
    destruct (check_rect src (effective src ss)); [contradiction|].
    destruct (check_rect dst (effective dst ds)); [contradiction|].
    destruct (negb _); [contradiction|].
    destruct (N.eqb_spec (sel_width (effective src ss)) (sel_height (effective dst ds))),
             (N.eqb_spec (sel_height (effective src ss)) (sel_width (effective dst ds)));
      simpl; tauto. }
  split; [exact Honly|].
  intros Hmis. split; [tauto|].
  intros Hs Hd Hws Hwd.
  assert (Hplan : plan_operation D src ss dst ds Clockwise90 rev
                  = Err RotationScaleConflict).
  { unfold plan_operation. apply check_rect_accepts in Hws, Hwd.
    rewrite Hws, Hwd, Hs, Hd. simpl negb. cbv iota.
    unfold swapped_sizes in Hmis.
    destruct (N.eqb_spec (sel_width (effective src ss)) (sel_height (effective dst ds))),
             (N.eqb_spec (sel_height (effective src ss)) (sel_width (effective dst ds)));
      simpl; try reflexivity; tauto. }
  split; [exact Hplan|].
  intros h <-. apply setup_plan_error. exact Hplan.
Qed.

Lemma rotation_excludes_scaling_witness :
  ~ swapped_sizes (effective cif_rgb565 None) (effective cif_rgb565 None) /\
  plan_operation sample_datasheet cif_rgb565 None cif_rgb565 None
    Clockwise90 RevPlain = Err RotationScaleConflict.
Proof.
  assert (Hmis : ~ swapped_sizes (effective cif_rgb565 None) (effective cif_rgb565 None)).
  { unfold swapped_sizes; simpl. intros [H _]. discriminate H. }
  split; [exact Hmis|].
  destruct (rotation_excludes_scaling sample_datasheet cif_rgb565 None
              cif_rgb565 None RevPlain) as (_ & H).
  destruct (H Hmis) as (_ & H').
  apply H'; try reflexivity; unfold within; simpl; lia.
Defined.

(** A 352 x 288 RGB565 surface turned into a 288 x 352 one: the plan is
    in rotation mode and carries no correction. *)
Example rotation_cif_run :
  exists p,
    plan_operation sample_datasheet cif_rgb565 None cif_rgb565_upright None
      Clockwise90 RevCorrecting = Ok p /\
    plan_mode p = Rotate /\ plan_correction p = None.
Proof. eexists. repeat split. Qed.

(** The correction is part of a plan exactly on the revision that needs
    it, and only when an axis is enlarged; its value is the data sheet's. *)
Lemma correction_present_iff D src ss dst ds rev p :
  plan_operation D src ss dst ds NoRotation rev = Ok p ->
  (plan_correction p <> None <->
   requires_correction rev = true /\
   ((sel_width (plan_src p) < sel_width (plan_dst p))%N \/
    (sel_height (plan_src p) < sel_height (plan_dst p))%N)).
Proof.
  unfold plan_operation.
  destruct (check_rect src (effective src ss)); [discriminate|].
  destruct (check_rect dst (effective dst ds)); [discriminate|].
  destruct (negb _); [discriminate|].
  intros [= <-]. simpl. unfold enlarges; simpl.
  destruct (N.ltb_spec (sel_width (effective src ss)) (sel_width (effective dst ds))),
           (N.ltb_spec (sel_height (effective src ss)) (sel_height (effective dst ds))),
           rev; simpl; split; try congruence; try tauto; try lia;
    intros [? ?]; try discriminate; lia.
Qed.

(** When no output size is given, the request that shveu-convert makes
    for a rotation has the sizes swapped, and is planned. *)
Lemma convert_default_rotation_planned D f g w h py pc qy qc rev :
  0 < w -> 0 < h -> supported f = true -> supported g = true ->
  let '(dw, dh) := Convert.default_output_size Clockwise90 w h (-1) (-1) in
  swapped_sizes (full_extent (Convert.surface_of f w h py pc))
                (full_extent (Convert.surface_of g dw dh qy qc)) /\
  is_ok (plan_operation D (Convert.surface_of f w h py pc) None
           (Convert.surface_of g dw dh qy qc) None Clockwise90 rev).
Proof.
  intros Hw Hh Hf Hg. simpl.
  assert (Hsw : swapped_sizes (full_extent (Convert.surface_of f w h py pc))
                  (full_extent (Convert.surface_of g h w qy qc)))
    by (split; reflexivity).
  split; [exact Hsw|].
  apply plan_operation_ok_iff; [exact Hf | exact Hg |].
  unfold within; simpl. repeat split; try lia. 
Qed.

(** ** State machine *)

(** C8: in [Idle] and in [Running], [start], [start_bundle], [set_source]
    and [set_destination] return [InvalidState] and leave the handle as it
    is; so does [configure] in [Running]. *)
Theorem invalid_state_rejected h n ys cs yd cd p :
  job_state h = Idle \/ job_state h = Running ->
  start h = (Err InvalidState, h) /\
  start_bundle n h = (Err InvalidState, h) /\
  set_source ys cs h = (Err InvalidState, h) /\
  set_destination yd cd h = (Err InvalidState, h) /\
  (job_state h = Running -> configure p h = (Err InvalidState, h)).
Proof.
  intros Hst.
  unfold start, start_bundle, set_source, set_destination, configure.
  destruct Hst as [-> | ->]; repeat split; try reflexivity; discriminate.
Qed.

Lemma invalid_state_rejected_witness :
  (job_state running_handle = Idle \/ job_state running_handle = Running) /\
  start_bundle 16 running_handle = (Err InvalidState, running_handle).
Proof.
  assert (H : job_state running_handle = Idle \/ job_state running_handle = Running)
    by (right; reflexivity).
  split; [exact H|].
  destruct (invalid_state_rejected running_handle 16 0 0 0 0
              {| plan_src := full_extent cif_rgb565; plan_dst := full_extent cif_rgb565;
                 plan_mode := Rotate; plan_src_planes := (0, 0);
                 plan_dst_planes := (0, 0); plan_correction := None |} H)
    as (_ & Hb & _).
  exact Hb.
Defined.

(** From [Configured] the same operations are accepted. *)
Lemma configured_accepts h p :
  job_state h = Configured -> current_config h = Some p ->
  is_ok (fst (start h)) /\ is_ok (fst (start_bundle 16 h)) /\
  is_ok (fst (set_source 0 0 h)) /\ is_ok (fst (set_destination 0 0 h)) /\
  is_ok (fst (configure p h)).
Proof.
  intros Hst Hc.
  unfold start, start_bundle, set_source, set_destination, configure.
  rewrite Hst, Hc. simpl. tauto.
Qed.

(** ** Bundled execution *)

(** One cycle on a configured handle: the chunk's lines are added to the
    count and the frame is signalled complete once the count reaches the
    frame's lines. *)
Lemma bundle_cycle_configured h p n src dst :
  job_state h = Configured -> current_config h = Some p ->
  bundle_cycle n true src dst h =
    (Ok (if (frame_lines p <=? lines_done h + n)%N
         then FrameComplete else ChunkComplete),
     {| revision := revision h; current_config := Some p;
        job_state := Configured; src_base := src; dst_base := dst;
        in_flight := 0; lines_done := lines_done h + n |}).
Proof.
  intros Hst Hc. destruct h, src, dst; simpl in *; subst.
  reflexivity.
Qed.

Lemma chunk_base_advance j a stride :
  chunk_base j (advance a stride) stride = chunk_base (S j) a stride.
Proof. unfold chunk_base, advance; simpl fst; simpl snd. f_equal; lia. Qed.

(** [k+1] cycles in a row on a configured handle. *)
Lemma bundle_cycles_configured k : forall h p n ss sd src dst,
  job_state h = Configured -> current_config h = Some p ->
  bundle_cycles (S k) n ss sd src dst h =
    (Ok (chunk_signals (frame_lines p) (lines_done h) n (S k)),
     {| revision := revision h; current_config := Some p;
        job_state := Configured;
        src_base := chunk_base k src ss; dst_base := chunk_base k dst sd;
        in_flight := 0; lines_done := lines_done h + N.of_nat (S k) * n |}).
Proof.
  induction k as [|k IH]; intros h p n ss sd src dst Hst Hc.
  - simpl bundle_cycles. unfold bind at 1.
    rewrite (bundle_cycle_configured h p n src dst Hst Hc).
    unfold bind, ret. simpl. f_equal. f_equal.
    + unfold chunk_base. destruct src; simpl; f_equal; lia.
    + unfold chunk_base. destruct dst; simpl; f_equal; lia.
    + lia.
  - change (bundle_cycles (S (S k)) n ss sd src dst) with
      (do c <- bundle_cycle n true src dst in
       do cs <- bundle_cycles (S k) n ss sd (advance src ss) (advance dst sd) in
       ret (c :: cs)).
    unfold bind at 1.
    rewrite (bundle_cycle_configured h p n src dst Hst Hc).
    unfold bind at 1. rewrite (IH _ p) by reflexivity.
    unfold ret. cbn [revision lines_done chunk_signals].
    rewrite !chunk_base_advance. f_equal. f_equal. lia.
Qed.

(** A frame cut into [k+1] chunks of [n] lines: only the last wait
    signals the frame. *)
Lemma chunk_signals_exact total n k : forall done,
  (0 < n)%N -> (done + N.of_nat (S k) * n = total)%N ->
  chunk_signals total done n (S k) = repeat ChunkComplete k ++ [FrameComplete].
Proof.
  induction k as [|k IH]; intros done Hn Htot.
  - simpl. destruct (N.leb_spec total (done + n)); [reflexivity | lia].
  - change (chunk_signals total done n (S (S k))) with
      ((if (total <=? done + n)%N then FrameComplete else ChunkComplete)
         :: chunk_signals total (done + n) n (S k)).
    rewrite IH by lia.
    destruct (N.leb_spec total (done + n)); [nia | reflexivity].
Qed.

(** The full-frame run on a configured handle. *)
Lemma start_wait_configured h p :
  job_state h = Configured -> current_config h = Some p ->
  (do _ <- start in wait true) h =
    (Ok FrameComplete,
     {| revision := revision h; current_config := Some p;
        job_state := Configured; src_base := src_base h; dst_base := dst_base h;
        in_flight := 0; lines_done := frame_lines p |}).
Proof.
  intros Hst Hc. destruct h; simpl in *; subst.
  unfold bind, start, wait; simpl.
  rewrite N.leb_refl. reflexivity.
Qed.

(** Configuring a freshly opened handle. *)
Lemma configure_open p rev :
  configure p (open rev) =
    (Ok tt,
     {| revision := rev; current_config := Some p; job_state := Configured;
        src_base := plan_src_planes p; dst_base := plan_dst_planes p;
        in_flight := 0; lines_done := 0 |}).
Proof. reflexivity. Qed.

(** C9: a 640 x 480 NV12 to NV12 pass-through is planned without scaling
    and without correction; configured and run as 30 cycles of 16 lines,
    with both base addresses moved on by 16 rows between the cycles, it
    processes 480 lines, the first 29 waits signal a chunk and the last
    one the frame, and the handle ends as after one full-frame [start]
    and [wait]: same signal, same state, same configuration and line
    count. *)
Theorem bundled_vga_frame_completes D rev ys cs yd cd :
  exists p hb hf,
    plan_operation D (vga_nv12 ys cs) None (vga_nv12 yd cd) None NoRotation rev
      = Ok p /\
    plan_mode p = Scale {| ratio_dst := 640; ratio_src := 640 |}
                        {| ratio_dst := 480; ratio_src := 480 |} /\
    plan_correction p = None /\
    (do _ <- configure p in
     bundle_cycles 30 16 (nv12_rows 640 16) (nv12_rows 640 16)
       (plan_src_planes p) (plan_dst_planes p)) (open rev)
      = (Ok (repeat ChunkComplete 29 ++ [FrameComplete]), hb) /\
    (do _ <- configure p in do _ <- start in wait true) (open rev)
      = (Ok FrameComplete, hf) /\
    lines_done hb = 480%N /\ lines_done hf = 480%N /\
    job_state hb = Configured /\ job_state hf = Configured /\
    current_config hb = Some p /\ current_config hf = Some p /\
    src_base hb = chunk_base 29 (plan_src_planes p) (10240, 5120) /\
    dst_base hb = chunk_base 29 (plan_dst_planes p) (10240, 5120).
Proof.
  eexists. eexists. eexists.
  split; [reflexivity|]. split; [reflexivity|].
  split; [destruct rev; reflexivity|].
  split.
  { unfold bind at 1. rewrite configure_open.
    erewrite (bundle_cycles_configured 29) by reflexivity.
    rewrite (chunk_signals_exact _ 16 29 _) by reflexivity.
    reflexivity. }
  split.
  { unfold bind at 1. rewrite configure_open.
    erewrite start_wait_configured by reflexivity. reflexivity. }
  repeat split.
Qed.

End VeuFacts.

(** ** The bundled loop of [scale] *)

Module DisplayFacts.

Import Veu Display.

Lemma cursor_after_step k w lcd_w c :
  cursor_after k w lcd_w (cursor_after 1 w lcd_w c) = cursor_after (S k) w lcd_w c.
Proof. unfold cursor_after; simpl py; simpl pc; simpl bb_virt. f_equal; lia. Qed.

(** One iteration on a configured handle. *)
Lemma scale_bundle_step fuel w lcd_w c veu p :
  job_state veu = Configured -> current_config veu = Some p ->
  scale_bundle (S fuel) true w lcd_w c veu =
    if (frame_lines p <=? lines_done veu + 16)%N
    then Some (cursor_after 1 w lcd_w c, handle_after c (lines_done veu + 16) veu)
    else scale_bundle fuel true w lcd_w (cursor_after 1 w lcd_w c)
           (handle_after c (lines_done veu + 16) veu).
Proof.
  intros Hst Hc. destruct veu, c; simpl in *; subst.
  unfold handle_after, cursor_after.
  cbn [scale_bundle set_source set_destination start_bundle wait snd fst
       job_state current_config revision src_base dst_base in_flight
       lines_done py pc bb_virt wait_status].
  change (Z.to_N 16) with 16%N. change (Z.of_nat 1) with 1.
  rewrite !Z.mul_1_l.
  destruct (frame_lines p <=? _)%N; reflexivity.
Qed.

(** With [k+1] chunks of 16 lines left, the loop ends after exactly
    [k+1] iterations: [k] iterations of fuel are not enough, [k+1] return
    the cursor moved [k+1] chunks on and the handle with every line of the
    frame processed. *)
Lemma scale_bundle_iterations k : forall w lcd_w c veu p,
  job_state veu = Configured -> current_config veu = Some p ->
  (lines_done veu + 16 * N.of_nat (S k) = frame_lines p)%N ->
  scale_bundle k true w lcd_w c veu = None /\
  scale_bundle (S k) true w lcd_w c veu =
    Some (cursor_after (S k) w lcd_w c,
          handle_after (cursor_after k w lcd_w c) (frame_lines p) veu).
Proof.
  induction k as [|k IH]; intros w lcd_w c veu p Hst Hc Hlines.
  - split; [reflexivity|].
    rewrite (scale_bundle_step 0 w lcd_w c veu p Hst Hc).
    destruct (N.leb_spec (frame_lines p) (lines_done veu + 16)); [|lia].
    f_equal. f_equal. unfold handle_after, cursor_after. destruct c; simpl.
    change (Z.of_nat 0) with 0. rewrite !Z.mul_0_l, !Z.add_0_r.
    f_equal. lia.
  - destruct (IH w lcd_w (cursor_after 1 w lcd_w c)
                (handle_after c (lines_done veu + 16) veu) p eq_refl Hc)
      as [Hnone Hsome].
    { simpl lines_done. lia. }
    split.
    + rewrite (scale_bundle_step k w lcd_w c veu p Hst Hc).
      destruct (N.leb_spec (frame_lines p) (lines_done veu + 16)); [lia|].
      exact Hnone.
    + rewrite (scale_bundle_step (S k) w lcd_w c veu p Hst Hc).
      destruct (N.leb_spec (frame_lines p) (lines_done veu + 16)); [lia|].
      rewrite Hsome, !cursor_after_step. reflexivity.
Qed.

(** A 640 x 480 source: 30 iterations, after which [py] has moved over
    the luma plane and [pc] over the chroma plane of an NV12 frame. *)
Lemma scale_bundle_vga lcd_w c veu p :
  job_state veu = Configured -> current_config veu = Some p ->
  lines_done veu = 0%N -> frame_lines p = 480%N ->
  exists c' veu',
    scale_bundle 30 true 640 lcd_w c veu = Some (c', veu') /\
    scale_bundle 29 true 640 lcd_w c veu = None /\
    py c' = py c + 640 * 480 /\ pc c' = pc c + 640 * 480 / 2 /\
    lines_done veu' = 480%N /\ job_state veu' = Configured.
Proof.
  intros Hst Hc Hdone Hlines.
  destruct (scale_bundle_iterations 29 640 lcd_w c veu p Hst Hc) as [Hnone Hsome].
  { rewrite Hdone, Hlines. reflexivity. }
  eexists. eexists. split; [exact Hsome|]. split; [exact Hnone|].
  simpl. rewrite Hlines. repeat split.
Qed.

End DisplayFacts.

(** * Command line handling of the tools

    The option tables and helper functions that shveu-convert.c and
    shveu-display.c share, and the part of each [main] that resolves
    colorspaces and sizes before any buffer is set up. *)

From Stdlib Require String Ascii.

(** ** C strings

    A C string is the characters before the terminating NUL; it is a
    [String.string] here, whose end stands for the NUL. *)

Module CStr.

Import String.StringSyntax Ascii.AsciiSyntax.

Abbreviation string := String.string.
Abbreviation ascii := Ascii.ascii.

Definition code (c : ascii) : Z := Z.of_N (Ascii.N_of_ascii c).

(** [tolower] of the C locale. *)
Definition tolower (c : ascii) : Z :=
  let n := code c in
  if (65 <=? n) && (n <=? 90) then n + 32 else n.

Definition strlen (s : string) : nat := String.length s.

(** [strncasecmp]: the difference of the first pair of characters that
    differ, letter case apart, among the first [n]; the end of a string
    counts as the character 0, and the comparison stops where both strings
    hold it. *)
Fixpoint strncasecmp (s1 s2 : string) (n : nat) {struct n} : Z :=
  match n with
  | O => 0
  | S n' =>
      match s1, s2 with
      | String.EmptyString, String.EmptyString => 0
      | String.EmptyString, String.String c2 _ => 0 - tolower c2
      | String.String c1 _, String.EmptyString => tolower c1
      | String.String c1 r1, String.String c2 r2 =>
          if tolower c1 =? tolower c2 then
            if tolower c1 =? 0 then 0 else strncasecmp r1 r2 n'
          else tolower c1 - tolower c2
      end
  end.

(** [strcmp (s1, s2) == 0] *)
Definition streq (s1 s2 : string) : bool := String.eqb s1 s2.

(** [strrchr (s, c)]: the string from the last [c] on, if there is one. *)
Fixpoint strrchr (s : string) (c : ascii) : option string :=
  match s with
  | String.EmptyString => None
  | String.String d r =>
      match strrchr r c with
      | Some t => Some t
      | None => if Ascii.eqb d c then Some s else None
      end
  end.

(** The character ['.']. *)
Definition dot : ascii := Ascii.ascii_of_N 46.

(** [p + 1] for a pointer into a string. *)
Definition next (s : string) : string :=
  match s with
  | String.EmptyString => String.EmptyString
  | String.String _ r => r
  end.

(** [p] is a prefix of [s], letter case apart. *)
Fixpoint ci_prefix (p s : string) {struct p} : bool :=
  match p with
  | String.EmptyString => true
  | String.String c p' =>
      match s with
      | String.EmptyString => false
      | String.String d s' => (tolower c =? tolower d) && ci_prefix p' s'
      end
  end.

(** No character of [s] lowers to 0: [s] is a C string all along. *)
Fixpoint nul_free (s : string) : bool :=
  match s with
  | String.EmptyString => true
  | String.String c r => negb (tolower c =? 0) && nul_free r
  end.

End CStr.

(** ** The tables and their look-ups *)

Module Cli.

Import String.StringSyntax Ascii.AsciiSyntax.
Import CStr.

Local Open Scope string_scope.
Local Open Scope Z_scope.

Record sizes_t := { name : string; w : Z; h : Z }.

Definition sizes : list sizes_t :=
  [ {| name := "QCIF"; w := 176; h := 144 |};
    {| name := "CIF"; w := 352; h := 288 |};
    {| name := "QVGA"; w := 320; h := 240 |};
    {| name := "VGA"; w := 640; h := 480 |};
    {| name := "D1"; w := 720; h := 480 |};
    {| name := "720p"; w := 1280; h := 720 |} ].

(** [!strncasecmp (arg, name, strlen (name))] *)
Definition matches (arg name : string) : bool :=
  strncasecmp arg name (strlen name) =? 0.

(** [set_size]: the status returned and the values of [*w] and [*h]
    after the call; [None] is the null pointer. *)
Definition set_size (arg : option string) (w0 h0 : Z) : Z * (Z * Z) :=
  match arg with
  | None => (-1, (w0, h0))
  | Some a =>
      match find (fun e => matches a (name e)) sizes with
      | Some e => (0, (w e, h e))
      | None => (-1, (w0, h0))
      end
  end.

Definition show_size (w0 h0 : Z) : string :=
  match find (fun e => (w0 =? w e) && (h0 =? h e)) sizes with
  | Some e => name e
  | None => ""
  end.

Record extensions_t := { ext : string; fmt : Z }.

Section Formats.

Variable F : sh_vid_format_t.

Definition exts : list extensions_t :=
  [ {| ext := "RGB565"; fmt := SH_RGB565 F |};
    {| ext := "rgb"; fmt := SH_RGB565 F |};
    {| ext := "RGB888"; fmt := SH_RGB24 F |};
    {| ext := "888"; fmt := SH_RGB24 F |};
    {| ext := "RGBx888"; fmt := SH_RGB32 F |};
    {| ext := "x888"; fmt := SH_RGB32 F |};
    {| ext := "YCbCr420"; fmt := SH_NV12 F |};
    {| ext := "420"; fmt := SH_NV12 F |};
    {| ext := "yuv"; fmt := SH_NV12 F |};
    {| ext := "NV12"; fmt := SH_NV12 F |};
    {| ext := "YCbCr422"; fmt := SH_NV16 F |};
    {| ext := "422"; fmt := SH_NV16 F |};
    {| ext := "NV16"; fmt := SH_NV16 F |} ].

(** [set_colorspace]: the status and the value of [*c] after the call. *)
Definition set_colorspace (arg : option string) (c : Z) : Z * Z :=
  match arg with
  | None => (-1, c)
  | Some a =>
      match find (fun e => matches a (ext e)) exts with
      | Some e => (0, fmt e)
      | None => (-1, c)
      end
  end.

Definition show_colorspace (c : Z) : string :=
  match find (fun e => c =? fmt e) exts with
  | Some e => ext e
  | None => "<Unknown colorspace>"
  end.

(** [guess_colorspace]; [unknown] is the value that stands for a
    colorspace not yet set: [SH_UNKNOWN] in shveu-convert, -1 in
    shveu-display. *)
Definition guess_colorspace (unknown : Z) (filename : option string) (c : Z)
  : Z * Z :=
  match filename with
  | None => (-1, c)
  | Some f =>
      if streq f "-" then (-1, c)
      else if negb (c =? unknown) then (-1, c)
      else
        match strrchr f dot with
        | None => (-1, c)
        | Some e => set_colorspace (Some (next e)) c
        end
  end.

(** [filesize]; [stat] gives [st_size], or [None] where the call fails. *)
Definition filesize (stat : string -> option Z) (filename : option string) : Z :=
  match filename with
  | None => -1
  | Some f =>
      if streq f "-" then -1
      else match stat f with
           | None => -1
           | Some size => size
           end
  end.

(** [guess_size]: the status and the values of [*w] and [*h]. *)
Definition guess_size (stat : string -> option Z) (filename : option string)
    (colorspace w0 h0 : Z) : Z * (Z * Z) :=
  let size := filesize stat filename in
  if size =? -1 then (-1, (w0, h0))
  else if (w0 =? -1) && (h0 =? -1) then
    match find (fun e => size =? imgsize F colorspace (w e) (h e)) sizes with
    | Some e => (0, (w e, h e))
    | None => (-1, (w0, h0))
    end
  else (-1, (w0, h0)).

End Formats.

End Cli.

(** ** Properties of the look-ups *)

Module CliFacts.

Import String.StringSyntax Ascii.AsciiSyntax.
Import CStr Cli.

Local Open Scope string_scope.
Local Open Scope Z_scope.

(** Against a name that is a C string, [strncasecmp] over the length of
    the name is zero exactly when the name is a prefix of the argument,
    letter case apart. *)
Lemma matches_ci_prefix nm : forall arg,
  nul_free nm = true -> matches arg nm = ci_prefix nm arg.
Proof.
  unfold matches, strlen.
  induction nm as [|c p IH]; intros arg Hfree; [reflexivity|].
  simpl in Hfree. apply andb_prop in Hfree as [Hc Hp].
  apply negb_true_iff, Z.eqb_neq in Hc.
  destruct arg as [|d s]; simpl.
  - destruct (Z.eqb_spec (0 - tolower c) 0); [lia | reflexivity].
  - rewrite (Z.eqb_sym (tolower c) (tolower d)).
    destruct (Z.eqb_spec (tolower d) (tolower c)) as [E|E]; simpl.
    + destruct (Z.eqb_spec (tolower d) 0); [congruence|]. apply IH, Hp.
    + destruct (Z.eqb_spec (tolower d - tolower c) 0); [lia | reflexivity].
Qed.

(** Two prefixes of one string agree as far as both reach. *)
Fixpoint ci_agree (p q : string) : bool :=
  match p, q with
  | String.String c p', String.String d q' =>
      (tolower c =? tolower d) && ci_agree p' q'
  | _, _ => true
  end.

Lemma ci_prefix_agree p : forall q s,
  ci_prefix p s = true -> ci_prefix q s = true -> ci_agree p q = true.
Proof.
  induction p as [|c p IH]; intros q s Hp Hq; [reflexivity|].
  destruct q as [|d q]; [reflexivity|].
  destruct s as [|e s]; [discriminate|].
  simpl in *. apply andb_prop in Hp as [Hc Hp], Hq as [Hd Hq].
  apply Z.eqb_eq in Hc, Hd.
  apply andb_true_intro. split; [apply Z.eqb_eq; congruence | eapply IH; eassumption].
Qed.

Lemma ci_prefix_trans q : forall p s,
  ci_prefix q p = true -> ci_prefix p s = true -> ci_prefix q s = true.
Proof.
  induction q as [|c q IH]; intros p s Hqp Hps; [reflexivity|].
  destruct p as [|d p]; [discriminate|].
  destruct s as [|e s]; [discriminate|].
  simpl in *. apply andb_prop in Hqp as [Hc Hqp], Hps as [Hd Hps].
  apply Z.eqb_eq in Hc, Hd.
  apply andb_true_intro. split; [apply Z.eqb_eq; congruence | eapply IH; eassumption].
Qed.

Lemma ci_prefix_refl s : ci_prefix s s = true.
Proof.
  induction s as [|c s IH]; [reflexivity|].
  simpl. rewrite Z.eqb_refl. exact IH.
Qed.

(** Settles a case in which the prefixes assumed of [arg] contradict each
    other. *)
Ltac prefix_clash :=
  match goal with
  | H1 : ci_prefix ?p ?s = true, H2 : ci_prefix ?q ?s = true |- _ =>
      discriminate (ci_prefix_agree p q s H1 H2)
  | H1 : ci_prefix ?p ?s = true, H2 : ci_prefix ?q ?s = false |- _ =>
      rewrite (ci_prefix_trans q p s eq_refl H1) in H2; discriminate H2
  end.

(** *** Sizes *)

Lemma sizes_nul_free : Forall (fun e => nul_free (name e) = true) sizes.
Proof. repeat constructor. Qed.

Lemma find_matches_sizes arg :
  find (fun e => matches arg (name e)) sizes
  = find (fun e => ci_prefix (name e) arg) sizes.
Proof.
  pose proof sizes_nul_free as Hf. revert Hf. generalize sizes.
  induction l as [|e l IH]; intros Hf; [reflexivity|].
  inversion Hf as [|? ? He Hl]; subst. simpl.
  rewrite (matches_ci_prefix _ _ He), (IH Hl). reflexivity.
Qed.

Lemma show_size_of_entry e : In e sizes -> show_size (w e) (h e) = name e.
Proof.
  unfold sizes. simpl. intros H.
  repeat (destruct H as [<- | H]; [reflexivity|]). contradiction.
Qed.

(** [set_size] takes an argument exactly when a name of the table is a
    prefix of it, letter case apart; it then stores the sizes of that
    entry, for which [show_size] gives the name back.  Otherwise it
    returns -1 and leaves the sizes as they were. *)
Theorem set_size_prefix arg w0 h0 :
  (exists e, In e sizes /\ ci_prefix (name e) arg = true /\
             set_size (Some arg) w0 h0 = (0, (w e, h e)) /\
             show_size (w e) (h e) = name e) \/
  ((forall e, In e sizes -> ci_prefix (name e) arg = false) /\
   set_size (Some arg) w0 h0 = (-1, (w0, h0))).
Proof.
  unfold set_size. rewrite find_matches_sizes.
  destruct (find (fun e => ci_prefix (name e) arg) sizes) as [e|] eqn:E.
  - left. apply find_some in E as [Hin Hpre].
    exists e. repeat split; try assumption. apply show_size_of_entry, Hin.
  - right. split; [|reflexivity].
    intros e Hin. exact (find_none _ _ E e Hin).
Qed.

(** The name that [show_size] prints for a size is accepted by [set_size]
    and gives that size again. *)
Theorem set_size_show_size w1 h1 w0 h0 :
  show_size w1 h1 <> "" ->
  set_size (Some (show_size w1 h1)) w0 h0 = (0, (w1, h1)).
Proof.
  unfold show_size.
  destruct (find (fun e => (w1 =? w e) && (h1 =? h e)) sizes) as [e|] eqn:E;
    [|intros H; contradiction].
  intros _. apply find_some in E as [Hin Heq].
  apply andb_prop in Heq as [Hw Hh]. apply Z.eqb_eq in Hw, Hh. subst w1 h1.
  unfold sizes in Hin. simpl in Hin.
  repeat (destruct Hin as [<- | Hin]; [reflexivity|]). contradiction.
Qed.

Lemma set_size_show_size_witness :
  show_size 720 480 <> "" /\ set_size (Some (show_size 720 480)) (-1) (-1) = (0, (720, 480)).
Proof.
  assert (H : show_size 720 480 <> "") by discriminate.
  split; [exact H|]. exact (set_size_show_size 720 480 (-1) (-1) H).
Defined.

(** *** Colorspaces *)

(** The colorspace that a prefix of the argument selects, class by
    class, letter case apart. *)
Definition colorspace_by_prefix (F : sh_vid_format_t) (arg : string) : option Z :=
  if ci_prefix "rgb" arg then Some (SH_RGB565 F)
  else if ci_prefix "888" arg then Some (SH_RGB24 F)
  else if ci_prefix "x888" arg then Some (SH_RGB32 F)
  else if ci_prefix "YCbCr420" arg || ci_prefix "420" arg
          || ci_prefix "yuv" arg || ci_prefix "NV12" arg
  then Some (SH_NV12 F)
  else if ci_prefix "YCbCr422" arg || ci_prefix "422" arg || ci_prefix "NV16" arg
  then Some (SH_NV16 F)
  else None.

(** [set_colorspace] decides by the first entry of [exts] that matches.
    Every argument that starts with [rgb] selects RGB565, RGB888 and
    RGBx888 among them: the entries of these two names are never reached,
    and RGB24 and RGB32 are selected through [888] and [x888] only. *)
Theorem set_colorspace_by_prefix F arg c :
  set_colorspace F (Some arg) c =
    match colorspace_by_prefix F arg with
    | Some f => (0, f)
    | None => (-1, c)
    end.
Proof.
  unfold set_colorspace, exts, colorspace_by_prefix. simpl find.
  rewrite !matches_ci_prefix by reflexivity.
  repeat match goal with
         | |- context [ci_prefix ?p arg] =>
             destruct (ci_prefix p arg) eqn:?;
             cbv beta iota delta [orb]; try prefix_clash
         end;
    reflexivity.
Qed.

(** The three spellings that the usage text lists for the RGB formats all
    select RGB565. *)
Example set_colorspace_rgb_spellings F c :
  set_colorspace F (Some "RGB565") c = (0, SH_RGB565 F) /\
  set_colorspace F (Some "RGB888") c = (0, SH_RGB565 F) /\
  set_colorspace F (Some "RGBx888") c = (0, SH_RGB565 F).
Proof. repeat split. Qed.

Lemma show_colorspace_table F :
  distinct_formats F ->
  show_colorspace F (SH_RGB565 F) = "RGB565" /\
  show_colorspace F (SH_RGB24 F) = "RGB888" /\
  show_colorspace F (SH_RGB32 F) = "RGBx888" /\
  show_colorspace F (SH_NV12 F) = "YCbCr420" /\
  show_colorspace F (SH_NV16 F) = "YCbCr422".
Proof.
  intros HF. apply distinct_formats_neq in HF.
  destruct HF as (?&?&?&?&?&?&?&?&?&?&?).
  unfold show_colorspace, exts. simpl find.
  repeat split; switch_cases.
Qed.

Lemma show_colorspace_unknown F c :
  c ∉ enumerated F -> show_colorspace F c = "<Unknown colorspace>".
Proof.
  unfold enumerated. rewrite !not_elem_of_cons. intros (?&?&?&?&?&?).
  unfold show_colorspace, exts. simpl find. switch_cases.
Qed.

(** Reading back the name that [show_colorspace] prints gives the
    colorspace again for RGB565, NV12 and NV16, but RGB565 for RGB24 and
    RGB32, whose printed names start with [RGB]; the text printed for any
    other value is not accepted. *)
Theorem show_colorspace_read_back F c c0 :
  distinct_formats F ->
  (c ∈ enumerated F ->
   set_colorspace F (Some (show_colorspace F c)) c0 =
     (0, if (c =? SH_RGB24 F) || (c =? SH_RGB32 F) then SH_RGB565 F else c)) /\
  (c ∉ enumerated F ->
   set_colorspace F (Some (show_colorspace F c)) c0 = (-1, c0)).
Proof.
  intros HF.
  destruct (show_colorspace_table F HF) as (E565 & E24 & E32 & E12 & E16).
  pose proof (distinct_formats_neq F HF) as (?&?&?&?&?&?&?&?&?&?&?).
  split.
  - unfold enumerated. rewrite !elem_of_cons, elem_of_nil.
    intros [-> | [-> | [-> | [-> | [-> | []]]]]];
      [rewrite E565 | rewrite E24 | rewrite E32 | rewrite E12 | rewrite E16];
      switch_cases; reflexivity.
  - intros Hout. rewrite (show_colorspace_unknown F c Hout). reflexivity.
Qed.

Lemma show_colorspace_read_back_witness :
  distinct_formats shveu_h /\
  set_colorspace shveu_h (Some (show_colorspace shveu_h (SH_RGB24 shveu_h))) 0
    = (0, SH_RGB565 shveu_h).
Proof.
  split; [exact shveu_h_distinct|].
  destruct (show_colorspace_read_back shveu_h (SH_RGB24 shveu_h) 0 shveu_h_distinct)
    as [H _].
  apply H. unfold enumerated. rewrite !elem_of_cons. right; left; reflexivity.
Defined.

(** *** Guessing from the file name *)

Fixpoint dot_free (s : string) : bool :=
  match s with
  | String.EmptyString => true
  | String.String c r => negb (Ascii.eqb c dot) && dot_free r
  end.

Lemma strrchr_dot_free s : dot_free s = true -> strrchr s dot = None.
Proof.
  induction s as [|c r IH]; [reflexivity|].
  simpl. intros H. apply andb_prop in H as [Hc Hr].
  rewrite (IH Hr). apply negb_true_iff in Hc. rewrite Hc. reflexivity.
Qed.

Lemma strrchr_last_dot pre : forall e,
  dot_free e = true ->
  strrchr (String.append pre (String.String dot e)) dot = Some (String.String dot e).
Proof.
  induction pre as [|c pre IH]; intros e He.
  - simpl. rewrite (strrchr_dot_free e He). reflexivity.
  - simpl. rewrite (IH e He). reflexivity.
Qed.

Lemma dashed_name_has_no_dot pre e :
  streq (String.append pre (String.String dot e)) "-" = false.
Proof.
  unfold streq. apply String.eqb_neq.
  destruct pre as [|c [|d pre]]; simpl; discriminate.
Qed.

(** [guess_colorspace] looks at the text after the last dot of the file
    name only, and only while the colorspace is unset: a colorspace
    already set is never replaced, and neither the name [-] nor a name
    without a dot gives a guess. *)
Theorem guess_colorspace_last_extension F unknown c pre e f :
  (dot_free e = true ->
   guess_colorspace F unknown (Some (String.append pre (String.String dot e))) unknown
     = set_colorspace F (Some e) unknown) /\
  (c <> unknown -> guess_colorspace F unknown (Some f) c = (-1, c)) /\
  (dot_free f = true -> guess_colorspace F unknown (Some f) c = (-1, c)) /\
  guess_colorspace F unknown (Some "-") c = (-1, c) /\
  guess_colorspace F unknown None c = (-1, c).
Proof.
  unfold guess_colorspace. split; [|split; [|split; [|split; reflexivity]]].
  - intros He. rewrite dashed_name_has_no_dot, Z.eqb_refl. simpl negb. cbv iota.
    rewrite (strrchr_last_dot pre e He). reflexivity.
  - intros Hc. destruct (streq f "-"); [reflexivity|].
    destruct (Z.eqb_spec c unknown); [contradiction | reflexivity].
  - intros Hf. destruct (streq f "-"); [reflexivity|].
    destruct (negb (c =? unknown)); [reflexivity|].
    rewrite (strrchr_dot_free f Hf). reflexivity.
Qed.

(** A name with two extensions is read by the last one. *)
Example guess_colorspace_run F :
  guess_colorspace F (SH_UNKNOWN F) (Some "frame.rgb.yuv") (SH_UNKNOWN F)
  = (0, SH_NV12 F).
Proof. unfold guess_colorspace. rewrite Z.eqb_refl. reflexivity. Qed.

(** *** Guessing the size from the file size *)

Lemma imgsize_switch_enumerated F c :
  c ∈ enumerated F ->
  imgsize_switch F c = Some (4, 1) \/ imgsize_switch F c = Some (3, 1) \/
  imgsize_switch F c = Some (2, 1) \/ imgsize_switch F c = Some (3, 2).
Proof.
  unfold enumerated. rewrite !elem_of_cons, elem_of_nil.
  unfold imgsize_switch.
  intros [-> | [-> | [-> | [-> | [-> | []]]]]];
    repeat match goal with
           | |- context [Z.eqb ?a ?b] => destruct (Z.eqb_spec a b); simpl
           end; tauto.
Qed.

Lemma imgsize_unsupported_value F c w0 h0 :
  c ∉ enumerated F -> imgsize F c w0 h0 = -1.
Proof.
  intros H. unfold imgsize. rewrite (imgsize_switch_default F c H). reflexivity.
Qed.

(** A file that holds one frame of a size of the table, in a supported
    colorspace, has its size guessed: the six sizes give six different
    byte counts in every colorspace. *)
Theorem guess_size_finds_table_size F stat f c e :
  c ∈ enumerated F -> In e sizes ->
  streq f "-" = false -> stat f = Some (imgsize F c (w e) (h e)) ->
  guess_size F stat (Some f) c (-1) (-1) = (0, (w e, h e)).
Proof.
  intros Hc He Hf Hstat.
  unfold guess_size, filesize. rewrite Hf, Hstat.
  unfold sizes in *. simpl find. simpl in He. unfold imgsize.
  destruct (imgsize_switch_enumerated F c Hc) as [E | [E | [E | E]]]; rewrite E;
    repeat (destruct He as [<- | He]; [reflexivity|]); contradiction.
Qed.

Lemma guess_size_finds_table_size_witness :
  SH_NV12 shveu_h ∈ enumerated shveu_h /\
  guess_size shveu_h (fun _ => Some 460800) (Some "clip.yuv")
    (SH_NV12 shveu_h) (-1) (-1) = (0, (640, 480)).
Proof.
  assert (Hin : SH_NV12 shveu_h ∈ enumerated shveu_h).
  { unfold enumerated. rewrite !elem_of_cons. right; right; right; left. reflexivity. }
  split; [exact Hin|].
  apply (guess_size_finds_table_size shveu_h (fun _ => Some 460800) "clip.yuv"
           (SH_NV12 shveu_h) {| name := "VGA"; w := 640; h := 480 |} Hin).
  - simpl. tauto.
  - reflexivity.
  - reflexivity.
Defined.

(** A size that [guess_size] stores was unset before, is a size of the
    table, and is the one whose frame in the given colorspace, which is a
    supported one, has exactly the size of the file. *)
Theorem guess_size_sound F stat filename c w0 h0 w1 h1 :
  guess_size F stat filename c w0 h0 = (0, (w1, h1)) ->
  w0 = -1 /\ h0 = -1 /\ c ∈ enumerated F /\
  (exists e, In e sizes /\ w e = w1 /\ h e = h1) /\
  imgsize F c w1 h1 = filesize stat filename.
Proof.
  unfold guess_size.
  destruct (Z.eqb_spec (filesize stat filename) (-1)) as [|Hsize]; [discriminate|].
  destruct (Z.eqb_spec w0 (-1)), (Z.eqb_spec h0 (-1));
    cbv beta iota delta [andb]; try discriminate.
  destruct (find _ sizes) as [t|] eqn:E; [|discriminate].
  intros [= <- <-]. apply find_some in E as [Hin Heq]. apply Z.eqb_eq in Heq.
  repeat split; try assumption; [|exists t; tauto | congruence].
  destruct (decide (c ∈ enumerated F)) as [|Hout]; [assumption|].
  rewrite (imgsize_unsupported_value F c _ _ Hout) in Heq. contradiction.
Qed.

Lemma guess_size_sound_witness :
  guess_size shveu_h (fun _ => Some 460800) (Some "clip.yuv")
    (SH_NV12 shveu_h) (-1) (-1) = (0, (640, 480)) /\
  imgsize shveu_h (SH_NV12 shveu_h) 640 480
    = filesize (fun _ => Some 460800) (Some "clip.yuv").
Proof.
  assert (H : guess_size shveu_h (fun _ => Some 460800) (Some "clip.yuv")
                (SH_NV12 shveu_h) (-1) (-1) = (0, (640, 480))) by reflexivity.
  split; [exact H|].
  destruct (guess_size_sound _ _ _ _ _ _ _ _ H) as (_ & _ & _ & _ & Hs). exact Hs.
Defined.

End CliFacts.

(** ** Parameter resolution in [main] of shveu-convert

    [main] up to the point where the buffers are set up: the options that
    [getopt] hands out one by one, the file names that follow them, the
    guesses, the defaults and the check that every parameter is set. *)

Module ConvertMain.

Import String.StringSyntax.
Import CStr Cli.

Local Open Scope string_scope.
Local Open Scope Z_scope.

(** The fields of [struct sh_vid_surface] that [main] sets before the
    buffers: [format], [w] and [h]. *)
Record surface := { format : Z; sw : Z; sh : Z }.

Record state := {
  show_version : bool;
  show_help : bool;
  outfilename : option string;
  src : surface;
  dst : surface;
  rotation : Veu.Rotation
}.

(** What [main] has settled when it opens the VEU. *)
Record job := {
  job_src : surface;
  job_dst : surface;
  job_rotation : Veu.Rotation;
  input_size : Z;
  output_size : Z
}.

(** [exit (status)], or the run of the conversion loop. *)
Inductive outcome :=
  | Exit (status : Z)
  | Run (j : job).

(** [size_t] of the 32-bit target. *)
Definition size_t (z : Z) : Z := z mod 4294967296.

Section Formats.

Variable F : sh_vid_format_t.
Variable stat : string -> option Z.

Definition initial : state :=
  {| show_version := false; show_help := false; outfilename := None;
     src := {| format := SH_UNKNOWN F; sw := -1; sh := -1 |};
     dst := {| format := SH_UNKNOWN F; sw := -1; sh := -1 |};
     rotation := Veu.NoRotation |}.

Definition with_format (s : surface) (c : Z) : surface :=
  {| format := c; sw := sw s; sh := sh s |}.

Definition with_size (s : surface) (wh : Z * Z) : surface :=
  {| format := format s; sw := fst wh; sh := snd wh |}.

(** The [switch (c)] of the option loop; [c] is the character code that
    [getopt] returned. *)
Definition option_step (c : Z) (optarg : option string) (st : state) : state :=
  if c =? 104 (* h *) then
    {| show_version := show_version st; show_help := true;
       outfilename := outfilename st; src := src st; dst := dst st;
       rotation := rotation st |}
  else if c =? 118 (* v *) then
    {| show_version := true; show_help := show_help st;
       outfilename := outfilename st; src := src st; dst := dst st;
       rotation := rotation st |}
  else if c =? 111 (* o *) then
    {| show_version := show_version st; show_help := show_help st;
       outfilename := optarg; src := src st; dst := dst st;
       rotation := rotation st |}
  else if c =? 99 (* c *) then
    {| show_version := show_version st; show_help := show_help st;
       outfilename := outfilename st;
       src := with_format (src st) (snd (set_colorspace F optarg (format (src st))));
       dst := dst st; rotation := rotation st |}
  else if c =? 115 (* s *) then
    {| show_version := show_version st; show_help := show_help st;
       outfilename := outfilename st;
       src := with_size (src st) (snd (set_size optarg (sw (src st)) (sh (src st))));
       dst := dst st; rotation := rotation st |}
  else if c =? 67 (* C *) then
    {| show_version := show_version st; show_help := show_help st;
       outfilename := outfilename st; src := src st;
       dst := with_format (dst st) (snd (set_colorspace F optarg (format (dst st))));
       rotation := rotation st |}
  else if c =? 83 (* S *) then
    {| show_version := show_version st; show_help := show_help st;
       outfilename := outfilename st; src := src st;
       dst := with_size (dst st) (snd (set_size optarg (sw (dst st)) (sh (dst st))));
       rotation := rotation st |}
  else if c =? 114 (* r *) then
    {| show_version := show_version st; show_help := show_help st;
       outfilename := outfilename st; src := src st; dst := dst st;
       rotation := Veu.Clockwise90 |}
  else st.

(** The [while (1)] loop over what [getopt] returns, -1 being the end of
    the list; [None] stands for the [goto exit_err] on [':']. *)
Fixpoint option_loop (opts : list (Z * option string)) (st : state) : option state :=
  match opts with
  | [] => Some st
  | (c, optarg) :: rest =>
      if c =? 58 (* : *) then None
      else option_loop rest (option_step c optarg st)
  end.

(** From the file names to the check: the guesses, the defaults and the
    [ERROR: ... unspecified] tests, then the two buffer sizes. *)
Definition resolve (infilename : string) (st : state) : outcome :=
  let src1 := with_format (src st)
                (snd (guess_colorspace F (SH_UNKNOWN F) (Some infilename)
                        (format (src st)))) in
  let dst1 := with_format (dst st)
                (snd (guess_colorspace F (SH_UNKNOWN F) (outfilename st)
                        (format (dst st)))) in
  let dst2 := if format dst1 =? SH_UNKNOWN F
              then with_format dst1 (format src1) else dst1 in
  let src2 := with_size src1
                (snd (guess_size F stat (Some infilename) (format src1)
                        (sw src1) (sh src1))) in
  let dst3 := with_size dst2
                (Convert.default_output_size (rotation st)
                   (sw src2) (sh src2) (sw dst2) (sh dst2)) in
  let error :=
    (format src2 =? SH_UNKNOWN F) || (sw src2 =? -1) || (sh src2 =? -1)
    || (format dst3 =? SH_UNKNOWN F) || (sw dst3 =? -1) || (sh dst3 =? -1) in
  if error then Exit 1
  else Run {| job_src := src2; job_dst := dst3; job_rotation := rotation st;
              input_size := size_t (imgsize F (format src2) (sw src2) (sh src2));
              output_size := size_t (imgsize F (format dst3) (sw dst3) (sh dst3)) |}.

(** After the option loop: the version and help exits, the file names,
    then [resolve]. *)
Definition after_options (args : list string) (st : state) : outcome :=
  if show_version st || show_help st then Exit 0
  else
    match args with
    | [] => Exit 1
    | infilename :: more =>
        let st' :=
          match more with
          | [] => st
          | out :: _ =>
              {| show_version := show_version st; show_help := show_help st;
                 outfilename := Some out; src := src st; dst := dst st;
                 rotation := rotation st |}
          end in
        resolve infilename st'
    end.

(** [main] from its first line to the buffer sizes.  [opts] is what
    [getopt] returns and [args] the words it leaves at [optind]; without
    any of either [main] prints the usage and returns 1, through
    [argc < 2] or through [optind >= argc]. *)
Definition parameters (opts : list (Z * option string)) (args : list string)
  : outcome :=
  match opts, args with
  | [], [] => Exit 1
  | _, _ =>
      match option_loop opts initial with
      | None => Exit 1
      | Some st => after_options args st
      end
  end.

(** The byte count of a frame, computed without a bound on the numbers. *)
Definition exact_size (colorspace w0 h0 : Z) : Z :=
  match imgsize_switch F colorspace with
  | Some (n, d) => w0 * h0 * n ÷ d
  | None => -1
  end.

(** A size of the table. *)
Definition table_size (w0 h0 : Z) : Prop :=
  exists e, In e sizes /\ w e = w0 /\ h e = h0.

End Formats.

End ConvertMain.

Module ConvertMainFacts.

Import String.StringSyntax.
Import CStr Cli CliFacts ConvertMain.

Local Open Scope string_scope.
Local Open Scope Z_scope.

Section Invariant.

Variable F : sh_vid_format_t.
Variable stat : string -> option Z.

(** A colorspace is unset or one of the five; a size is unset or one of
    the table. *)
Definition fmt_ok (c : Z) : Prop := c = SH_UNKNOWN F \/ c ∈ enumerated F.

Definition dims_ok (w0 h0 : Z) : Prop := (w0 = -1 /\ h0 = -1) \/ table_size w0 h0.

Definition surface_ok (s : surface) : Prop :=
  fmt_ok (format s) /\ dims_ok (sw s) (sh s).

Lemma exts_enumerated e : In e (exts F) -> fmt e ∈ enumerated F.
Proof.
  unfold exts, enumerated. simpl. rewrite !elem_of_cons.
  intros H. repeat (destruct H as [<- | H]; [simpl; tauto|]). contradiction.
Qed.

Lemma set_colorspace_keeps arg c :
  fmt_ok c -> fmt_ok (snd (set_colorspace F arg c)).
Proof.
  intros Hc. unfold set_colorspace. destruct arg as [a|]; [|exact Hc].
  destruct (find _ (exts F)) as [e|] eqn:E; [|exact Hc].
  apply find_some in E as [Hin _]. right. apply exts_enumerated, Hin.
Qed.

Lemma set_size_keeps arg w0 h0 :
  dims_ok w0 h0 ->
  dims_ok (fst (snd (set_size arg w0 h0))) (snd (snd (set_size arg w0 h0))).
Proof.
  intros Hd. unfold set_size. destruct arg as [a|]; [|exact Hd].
  destruct (find _ sizes) as [e|] eqn:E; [|exact Hd].
  apply find_some in E as [Hin _]. right. exists e. simpl. tauto.
Qed.

Lemma guess_colorspace_keeps filename c :
  fmt_ok c -> fmt_ok (snd (guess_colorspace F (SH_UNKNOWN F) filename c)).
Proof.
  intros Hc. unfold guess_colorspace. destruct filename as [f|]; [|exact Hc].
  destruct (streq f "-"); [exact Hc|].
  destruct (negb (c =? SH_UNKNOWN F)); [exact Hc|].
  destruct (strrchr f dot); [|exact Hc].
  apply set_colorspace_keeps, Hc.
Qed.

Lemma guess_size_keeps filename c w0 h0 :
  dims_ok w0 h0 ->
  dims_ok (fst (snd (guess_size F stat filename c w0 h0)))
          (snd (snd (guess_size F stat filename c w0 h0))).
Proof.
  intros Hd. unfold guess_size.
  destruct (filesize stat filename =? -1); [exact Hd|].
  destruct ((w0 =? -1) && (h0 =? -1)); [|exact Hd].
  destruct (find _ sizes) as [e|] eqn:E; [|exact Hd].
  apply find_some in E as [Hin _]. right. exists e. simpl. tauto.
Qed.

Definition state_ok (st : state) : Prop :=
  surface_ok (src st) /\ surface_ok (dst st).

Lemma initial_ok : state_ok (initial F).
Proof. repeat split; left; simpl; tauto. Qed.

Lemma option_step_keeps c optarg st :
  state_ok st -> state_ok (option_step F c optarg st).
Proof.
  intros [[Hsf Hsd] [Hdf Hdd]]. unfold option_step.
  repeat match goal with
         | |- context [Z.eqb c ?k] => destruct (Z.eqb c k)
         end;
    repeat split; simpl; try assumption;
    first [apply set_colorspace_keeps | apply set_size_keeps]; assumption.
Qed.

Lemma option_loop_keeps opts : forall st st',
  state_ok st -> option_loop F opts st = Some st' -> state_ok st'.
Proof.
  induction opts as [|[c optarg] rest IH]; intros st st' Hok.
  - intros [= <-]. exact Hok.
  - simpl. destruct (c =? 58); [discriminate|].
    apply IH, option_step_keeps, Hok.
Qed.

(** The frame of a size of the table, lying or upright, in one of the
    five colorspaces: [imgsize] is exact, and the byte count positive and
    at most that of a 1280 x 720 RGB32 frame. *)
Lemma imgsize_of_table_size c w0 h0 :
  c ∈ enumerated F -> table_size w0 h0 \/ table_size h0 w0 ->
  size_t (imgsize F c w0 h0) = exact_size F c w0 h0 /\
  0 < exact_size F c w0 h0 <= 3686400.
Proof.
  intros Hc Ht. unfold imgsize, exact_size.
  assert (Hcases : In (w0, h0)
            [(176, 144); (352, 288); (320, 240); (640, 480); (720, 480); (1280, 720);
             (144, 176); (288, 352); (240, 320); (480, 640); (480, 720); (720, 1280)]).
  { destruct Ht as [(e & Hin & <- & <-) | (e & Hin & <- & <-)];
      unfold sizes in Hin; simpl in Hin;
      repeat (destruct Hin as [<- | Hin]; [simpl; tauto|]); contradiction. }
  simpl in Hcases.
  destruct (imgsize_switch_enumerated F c Hc) as [E | [E | [E | E]]]; rewrite E;
    repeat (destruct Hcases as [[= <- <-] | Hcases]; [vm_compute; intuition discriminate|]);
    contradiction.
Qed.

Lemma default_output_size_keeps rot w0 h0 w1 h1 :
  dims_ok w0 h0 -> dims_ok w1 h1 ->
  let wh := Convert.default_output_size rot w0 h0 w1 h1 in
  (fst wh = -1 /\ snd wh = -1) \/ table_size (fst wh) (snd wh) \/
  (rot = Veu.Clockwise90 /\ table_size (snd wh) (fst wh)).
Proof.
  intros Hs Hd. unfold Convert.default_output_size.
  destruct ((w1 =? -1) && (h1 =? -1)).
  - destruct rot; simpl.
    + destruct Hs as [[-> ->] | Hs]; tauto.
    + destruct Hs as [[-> ->] | Hs]; tauto.
  - simpl. destruct Hd as [[-> ->] | Hd]; tauto.
Qed.

(** What holds of a job that [main] lets through. *)
Definition resolved (j : job) : Prop :=
  format (job_src j) ∈ enumerated F /\ format (job_dst j) ∈ enumerated F /\
  table_size (sw (job_src j)) (sh (job_src j)) /\
  (table_size (sw (job_dst j)) (sh (job_dst j)) \/
   (job_rotation j = Veu.Clockwise90 /\
    table_size (sh (job_dst j)) (sw (job_dst j)))) /\
  input_size j = exact_size F (format (job_src j)) (sw (job_src j)) (sh (job_src j)) /\
  output_size j = exact_size F (format (job_dst j)) (sw (job_dst j)) (sh (job_dst j)) /\
  0 < input_size j <= 3686400 /\ 0 < output_size j <= 3686400.

Lemma resolve_ok infilename st j :
  state_ok st -> resolve F stat infilename st = Run j -> resolved j.
Proof.
  intros [[Hsf Hsd] [Hdf Hdd]]. unfold resolved, resolve.
  set (cs := snd (guess_colorspace F (SH_UNKNOWN F) (Some infilename) (format (src st)))).
  set (cd := snd (guess_colorspace F (SH_UNKNOWN F) (outfilename st) (format (dst st)))).
  assert (Hcs : fmt_ok cs) by (apply guess_colorspace_keeps, Hsf).
  assert (Hcd : fmt_ok cd) by (apply guess_colorspace_keeps, Hdf).
  simpl format. simpl sw. simpl sh.
  set (cd' := format (if cd =? SH_UNKNOWN F
                      then with_format (with_format (dst st) cd) cs
                      else with_format (dst st) cd)).
  assert (Hcd' : fmt_ok cd').
  { unfold cd'. destruct (cd =? SH_UNKNOWN F); simpl; assumption. }
  assert (Hdims : forall b : bool,
            sw (if b then with_format (with_format (dst st) cd) cs
                else with_format (dst st) cd) = sw (dst st) /\
            sh (if b then with_format (with_format (dst st) cd) cs
                else with_format (dst st) cd) = sh (dst st))
    by (intros []; split; reflexivity).
  destruct (Hdims (cd =? SH_UNKNOWN F)) as [-> ->]. clear Hdims.
  set (gs := snd (guess_size F stat (Some infilename) cs (sw (src st)) (sh (src st)))).
  assert (Hgs : dims_ok (fst gs) (snd gs)) by (apply guess_size_keeps, Hsd).
  set (wh := Convert.default_output_size (rotation st) (fst gs) (snd gs)
               (sw (dst st)) (sh (dst st))).
  pose proof (default_output_size_keeps (rotation st) _ _ _ _ Hgs Hdd) as Hwh.
  fold wh in Hwh. cbv zeta in Hwh.
  destruct (Z.eqb_spec cs (SH_UNKNOWN F)); [discriminate|].
  destruct (Z.eqb_spec (fst gs) (-1)); [discriminate|].
  destruct (Z.eqb_spec (snd gs) (-1)); [discriminate|].
  destruct (Z.eqb_spec cd' (SH_UNKNOWN F)); [discriminate|].
  destruct (Z.eqb_spec (fst wh) (-1)); [discriminate|].
  destruct (Z.eqb_spec (snd wh) (-1)); [discriminate|].
  simpl. intros [= <-]. simpl.
  assert (Es : cs ∈ enumerated F) by (destruct Hcs; [contradiction | assumption]).
  assert (Ed : cd' ∈ enumerated F) by (destruct Hcd'; [contradiction | assumption]).
  assert (Ts : table_size (fst gs) (snd gs)) by (destruct Hgs as [[? ?] | ?]; [contradiction | assumption]).
  assert (Td : table_size (fst wh) (snd wh) \/
               (rotation st = Veu.Clockwise90 /\ table_size (snd wh) (fst wh))).
  { destruct Hwh as [[? ?] | Hwh]; [contradiction | exact Hwh]. }
  destruct (imgsize_of_table_size cs (fst gs) (snd gs) Es (or_introl Ts)) as [Hi Hib].
  destruct (imgsize_of_table_size cd' (fst wh) (snd wh) Ed) as [Ho Hob].
  { destruct Td as [? | [_ ?]]; [left | right]; assumption. }
  rewrite Hi, Ho. tauto.
Qed.

(** Whenever [main] gets as far as the buffers, both colorspaces are among
    the five, the input size is one of the table and the output size is
    one of the table, or of the table turned when rotating; [imgsize]
    then gives the exact byte counts, which are positive and at most
    3686400: nothing overflows and no size is -1. *)
Theorem parameters_resolved opts args j :
  parameters F stat opts args = Run j ->
  format (job_src j) ∈ enumerated F /\ format (job_dst j) ∈ enumerated F /\
  table_size (sw (job_src j)) (sh (job_src j)) /\
  (table_size (sw (job_dst j)) (sh (job_dst j)) \/
   (job_rotation j = Veu.Clockwise90 /\
    table_size (sh (job_dst j)) (sw (job_dst j)))) /\
  input_size j = exact_size F (format (job_src j)) (sw (job_src j)) (sh (job_src j)) /\
  output_size j = exact_size F (format (job_dst j)) (sw (job_dst j)) (sh (job_dst j)) /\
  0 < input_size j <= 3686400 /\ 0 < output_size j <= 3686400.
Proof.
  assert (Hgo : forall st, state_ok st ->
                 after_options F stat args st = Run j -> resolved j).
  { intros st Hok. unfold after_options.
    destruct (show_version st || show_help st); [discriminate|].
    destruct args as [|infilename more]; [discriminate|].
    apply resolve_ok. destruct more; exact Hok. }
  unfold parameters.
  destruct (option_loop F opts (initial F)) as [st|] eqn:E.
  - pose proof (option_loop_keeps opts _ _ initial_ok E) as Hok.
    destruct opts, args; try discriminate; apply Hgo, Hok.
  - destruct opts, args; discriminate.
Qed.

End Invariant.

(** [shveu-convert -c NV12 -s VGA -r in.yuv]: the output is 480 x 640. *)
Definition rotate_vga_job : job :=
  {| job_src := {| format := 1; sw := 640; sh := 480 |};
     job_dst := {| format := 1; sw := 480; sh := 640 |};
     job_rotation := Veu.Clockwise90;
     input_size := 460800; output_size := 460800 |}.

Lemma parameters_resolved_witness :
  parameters shveu_h (fun _ => None)
    [(99, Some "NV12"); (115, Some "VGA"); (114, None)] ["in.yuv"]
    = Run rotate_vga_job /\
  0 < input_size rotate_vga_job <= 3686400.
Proof.
  assert (H : parameters shveu_h (fun _ => None)
                [(99, Some "NV12"); (115, Some "VGA"); (114, None)] ["in.yuv"]
              = Run rotate_vga_job) by reflexivity.
  split; [exact H|].
  destruct (parameters_resolved shveu_h _ _ _ _ H) as (_ & _ & _ & _ & _ & _ & Hb & _).
  exact Hb.
Defined.

(** When no output size is given, the job that [main] lets through has
    the input size as its output size, with width and height exchanged
    when rotating: a rotation then never asks for scaling. *)
Theorem resolve_default_output F stat infilename st j :
  sw (dst st) = -1 -> sh (dst st) = -1 ->
  resolve F stat infilename st = Run j ->
  match job_rotation j with
  | Veu.NoRotation =>
      sw (job_dst j) = sw (job_src j) /\ sh (job_dst j) = sh (job_src j)
  | Veu.Clockwise90 =>
      sw (job_dst j) = sh (job_src j) /\ sh (job_dst j) = sw (job_src j)
  end.
Proof.
  intros Hw Hh. unfold resolve.
  destruct (_ || _); [discriminate|].
  intros [= <-]. simpl job_rotation. simpl job_dst. simpl job_src.
  assert (Hdims : forall (b : bool) s t, sw s = sw t -> sh s = sh t ->
            sw (if b then with_format s (format (with_format (src st)
                 (snd (guess_colorspace F (SH_UNKNOWN F) (Some infilename)
                         (format (src st)))))) else t) = sw t /\
            sh (if b then with_format s (format (with_format (src st)
                 (snd (guess_colorspace F (SH_UNKNOWN F) (Some infilename)
                         (format (src st)))))) else t) = sh t)
    by (intros [] s t Hs Ht; simpl; tauto).
  match goal with
  | |- context [if ?b then with_format ?s _ else ?t] =>
      destruct (Hdims b s t eq_refl eq_refl) as [Ew Eh]
  end.
  simpl sw in *. simpl sh in *. rewrite Ew, Eh, Hw, Hh.
  unfold Convert.default_output_size. simpl.
  destruct (rotation st); simpl; split; reflexivity.
Qed.

Lemma resolve_default_output_witness :
  sw (dst (initial shveu_h)) = -1 /\ sh (dst (initial shveu_h)) = -1 /\
  resolve shveu_h (fun _ => Some 460800) "clip.yuv" (initial shveu_h)
    = Run {| job_src := {| format := 1; sw := 640; sh := 480 |};
             job_dst := {| format := 1; sw := 640; sh := 480 |};
             job_rotation := Veu.NoRotation;
             input_size := 460800; output_size := 460800 |} /\
  (640 = 640 /\ 480 = 480).
Proof.
  split; [reflexivity|]. split; [reflexivity|].
  assert (H : resolve shveu_h (fun _ => Some 460800) "clip.yuv" (initial shveu_h)
              = Run {| job_src := {| format := 1; sw := 640; sh := 480 |};
                       job_dst := {| format := 1; sw := 640; sh := 480 |};
                       job_rotation := Veu.NoRotation;
                       input_size := 460800; output_size := 460800 |})
    by reflexivity.
  split; [exact H|].
  exact (resolve_default_output shveu_h (fun _ => Some 460800) "clip.yuv"
           (initial shveu_h) _ eq_refl eq_refl H).
Defined.

End ConvertMainFacts.

(** ** Parameter resolution and the test picture in [main] of shveu-display *)

Module DisplayMain.

Import String.StringSyntax.
Import CStr Cli.

Local Open Scope string_scope.
Local Open Scope Z_scope.

(** RGB565 colors *)
Definition BLACK : Z := 0.
Definition RED : Z := 63488.
Definition GREEN : Z := 2016.
Definition BLUE : Z := 31.

Record state := {
  show_version : bool;
  show_help : bool;
  input_w : Z;
  input_h : Z;
  input_colorspace : Z
}.

Record job := {
  infilename : option string;
  job_w : Z;
  job_h : Z;
  job_colorspace : Z;
  input_size : Z
}.

Inductive outcome :=
  | Exit (status : Z)
  | Run (j : job).

Section Formats.

Variable F : sh_vid_format_t.
Variable stat : string -> option Z.

Definition initial : state :=
  {| show_version := false; show_help := false;
     input_w := -1; input_h := -1; input_colorspace := -1 |}.

(** The [switch (c)] of the option loop. *)
Definition option_step (c : Z) (optarg : option string) (st : state) : state :=
  if c =? 104 (* h *) then
    {| show_version := show_version st; show_help := true;
       input_w := input_w st; input_h := input_h st;
       input_colorspace := input_colorspace st |}
  else if c =? 118 (* v *) then
    {| show_version := true; show_help := show_help st;
       input_w := input_w st; input_h := input_h st;
       input_colorspace := input_colorspace st |}
  else if c =? 99 (* c *) then
    {| show_version := show_version st; show_help := show_help st;
       input_w := input_w st; input_h := input_h st;
       input_colorspace := snd (set_colorspace F optarg (input_colorspace st)) |}
  else if c =? 115 (* s *) then
    let wh := snd (set_size optarg (input_w st) (input_h st)) in
    {| show_version := show_version st; show_help := show_help st;
       input_w := fst wh; input_h := snd wh;
       input_colorspace := input_colorspace st |}
  else st.

Fixpoint option_loop (opts : list (Z * option string)) (st : state) : option state :=
  match opts with
  | [] => Some st
  | (c, optarg) :: rest =>
      if c =? 58 (* : *) then None
      else option_loop rest (option_step c optarg st)
  end.

(** With an input file the colorspace and the size are guessed from it;
    without one the size defaults to 320 x 240 and the colorspace is
    RGB565 whatever the options said. *)
Definition with_input (args : list string) (st : state) : option string * state :=
  match args with
  | f :: _ =>
      let c := snd (guess_colorspace F (-1) (Some f) (input_colorspace st)) in
      let wh := snd (guess_size F stat (Some f) c (input_w st) (input_h st)) in
      (Some f,
       {| show_version := show_version st; show_help := show_help st;
          input_w := fst wh; input_h := snd wh; input_colorspace := c |})
  | [] =>
      (None,
       {| show_version := show_version st; show_help := show_help st;
          input_w := if input_w st =? -1 then 320 else input_w st;
          input_h := if input_w st =? -1 then 240 else input_h st;
          input_colorspace := SH_RGB565 F |})
  end.

(** [main] up to [input_size]; [optind > argc] never holds after
    [getopt] and has no branch here. *)
Definition parameters (opts : list (Z * option string)) (args : list string)
  : outcome :=
  match option_loop opts initial with
  | None => Exit 1
  | Some st =>
      if show_version st || show_help st then Exit 0
      else
        let '(f, st') := with_input args st in
        if (input_colorspace st' =? -1) || (input_w st' =? -1) || (input_h st' =? -1)
        then Exit 1
        else Run {| infilename := f; job_w := input_w st'; job_h := input_h st';
                    job_colorspace := input_colorspace st';
                    input_size :=
                      ConvertMain.size_t
                        (imgsize F (input_colorspace st') (input_w st') (input_h st')) |}
  end.

End Formats.

(** [main] without an input file: the picture drawn into [src_py], black
    with a blue and a red bar. *)
Definition simple_picture (src_py : list Z) (input_w input_h : Z)
  : option (list Z) :=
  match draw_rect_rgb565 src_py BLACK 0 0 input_w input_h input_w with
  | None => None
  | Some s1 =>
      match draw_rect_rgb565 s1 BLUE (CInt.div input_w 4) (CInt.div input_h 4)
              (CInt.div input_w 4) (CInt.div input_h 2) input_w with
      | None => None
      | Some s2 =>
          draw_rect_rgb565 s2 RED (CInt.div input_w 2) (CInt.div input_h 4)
            (CInt.div input_w 4) (CInt.div input_h 2) input_w
      end
  end.

End DisplayMain.

(** ** More on [draw_rect_rgb565] *)

(** The effect of [draw_rect_rgb565] with a rectangle in bounds. *)
Lemma draw_rect_in_bounds (surface : list Z) color x y w h span rows :
  rgb565_surface surface span rows ->
  rect_in_bounds x y w h span rows ->
  exists surface',
    draw_rect_rgb565 surface color x y w h span = Some surface' /\
    rgb565_surface surface' span rows /\
    forall r c, 0 <= r < rows -> 0 <= c < span ->
      pixel surface' span r c =
        if in_rect x y w h r c then Some color else pixel surface span r c.
Proof.
  intros Hs (Hx & Hy & Hw & Hh & Hxw & Hyh).
  pose proof Hs as [Hlen Hmax].
  unfold draw_rect_rgb565.
  assert (Hmul : CInt.mul y span = y * span).
  { apply mul_exact.
    assert (0 <= span) by lia.
    pose proof (Z.mul_le_mono_nonneg_r y rows span ltac:(lia) ltac:(lia)).
    nia. }
  rewrite Hmul.
  destruct (fill_rows_spec color x w span rows (Z.to_nat h) y surface)
    as (m' & Hrun & Hl & Hget); try assumption; try lia.
  exists m'. split; [exact Hrun|]. split; [split; [rewrite Hl; exact Hlen | exact Hmax]|].
  intros r c Hr Hc. rewrite Hget by lia. rewrite Z2Nat.id by lia. reflexivity.
Qed.

Lemma fill_rows_no_width n : forall color w span pix (m : list Z),
  w <= 0 -> fill_rows n color w span pix m = Some m.
Proof.
  induction n as [|n IH]; intros color w span pix m Hw; [reflexivity|].
  simpl. replace (Z.to_nat w) with O by lia. simpl. apply IH, Hw.
Qed.

(** A rectangle without width or without height: nothing is stored and
    the surface comes back as it was, wherever the rectangle lies. *)
Theorem draw_rect_rgb565_empty (surface : list Z) color x y w h span :
  w <= 0 \/ h <= 0 ->
  draw_rect_rgb565 surface color x y w h span = Some surface.
Proof.
  intros [Hw | Hh]; unfold draw_rect_rgb565.
  - apply fill_rows_no_width, Hw.
  - replace (Z.to_nat h) with O by lia. reflexivity.
Qed.

Lemma draw_rect_rgb565_empty_witness :
  (0 <= 0 \/ 5 <= 0) /\
  draw_rect_rgb565 [1; 2; 3; 4] 63488 9 9 0 5 2 = Some [1; 2; 3; 4].
Proof.
  assert (H : 0 <= 0 \/ 5 <= 0) by (left; lia).
  split; [exact H|]. exact (draw_rect_rgb565_empty [1; 2; 3; 4] 63488 9 9 0 5 2 H).
Defined.

(** Filling the whole surface, as [scale] clears the back buffer: every
    pixel takes the colour. *)
Theorem draw_rect_rgb565_clear (surface : list Z) color span rows :
  rgb565_surface surface span rows -> 0 <= span -> 0 <= rows ->
  draw_rect_rgb565 surface color 0 0 span rows span
  = Some (replicate (length surface) color).
Proof.
  intros Hs Hspan Hrows.
  destruct (draw_rect_in_bounds surface color 0 0 span rows span rows Hs)
    as (s' & Hrun & [Hlen' _] & Hget).
  { unfold rect_in_bounds. lia. }
  rewrite Hrun. f_equal. destruct Hs as [Hlen Hmax].
  apply list_eq. intros i.
  destruct (decide (i < length surface)%nat) as [Hi | Hi].
  - rewrite lookup_replicate_2 by exact Hi.
    assert (Hpos : 0 < span) by nia.
    pose proof (Z.div_mod (Z.of_nat i) span ltac:(lia)) as Hdm.
    pose proof (Z.mod_pos_bound (Z.of_nat i) span Hpos) as Hmod.
    assert (Hr : 0 <= Z.of_nat i / span < rows).
    { split; [apply Z.div_pos; lia|].
      apply Z.div_lt_upper_bound; lia. }
    specialize (Hget (Z.of_nat i / span) (Z.of_nat i mod span) Hr Hmod).
    unfold pixel in Hget.
    replace (Z.of_nat i / span * span + Z.of_nat i mod span) with (Z.of_nat i) in Hget
      by lia.
    rewrite Nat2Z.id in Hget. rewrite Hget. unfold in_rect.
    destruct (Z.leb_spec 0 (Z.of_nat i / span)), (Z.ltb_spec (Z.of_nat i / span) (0 + rows)),
             (Z.leb_spec 0 (Z.of_nat i mod span)),
             (Z.ltb_spec (Z.of_nat i mod span) (0 + span)); simpl; try reflexivity; lia.
  - rewrite !lookup_ge_None_2; [reflexivity | rewrite length_replicate; lia | lia].
Qed.

Lemma draw_rect_rgb565_clear_witness :
  rgb565_surface [1; 2; 3; 4; 5; 6] 3 2 /\ 0 <= 3 /\ 0 <= 2 /\
  draw_rect_rgb565 [1; 2; 3; 4; 5; 6] 0 0 0 3 2 3 = Some [0; 0; 0; 0; 0; 0].
Proof.
  assert (Hs : rgb565_surface [1; 2; 3; 4; 5; 6] 3 2).
  { split; [reflexivity | unfold CInt.INT_MAX; lia]. }
  split; [exact Hs|]. split; [lia|]. split; [lia|].
  exact (draw_rect_rgb565_clear [1; 2; 3; 4; 5; 6] 0 3 2 Hs ltac:(lia) ltac:(lia)).
Defined.

Module DisplayMainFacts.

Import DisplayMain.

Lemma cint_div_small a b :
  0 <= a <= CInt.INT_MAX -> 0 < b -> CInt.div a b = a / b.
Proof.
  intros Ha Hb. rewrite div_exact by assumption.
  apply Z.quot_div_nonneg; lia.
Qed.

(** The picture that [main] draws when no input file is given: on a
    buffer of [input_w] x [input_h] pixels the three calls stay inside
    the buffer, and the result is black but for a blue bar in the second
    quarter of the width and a red bar in the third, both over the middle
    half of the height. *)
Theorem simple_picture_drawn (src_py : list Z) input_w input_h :
  0 < input_w -> 0 < input_h -> rgb565_surface src_py input_w input_h ->
  exists picture,
    simple_picture src_py input_w input_h = Some picture /\
    length picture = length src_py /\
    forall r c, 0 <= r < input_h -> 0 <= c < input_w ->
      pixel picture input_w r c =
        Some (if in_rect (input_w / 2) (input_h / 4) (input_w / 4) (input_h / 2) r c
              then RED
              else if in_rect (input_w / 4) (input_h / 4) (input_w / 4) (input_h / 2) r c
                   then BLUE
                   else BLACK).
Proof.
  intros Hw Hh Hs. pose proof Hs as [Hlen Hmax].
  assert (Hwmax : input_w <= CInt.INT_MAX) by nia.
  assert (Hhmax : input_h <= CInt.INT_MAX) by nia.
  unfold simple_picture.
  rewrite !cint_div_small by lia.
  destruct (draw_rect_in_bounds src_py BLACK 0 0 input_w input_h input_w input_h Hs)
    as (s1 & -> & Hs1 & Hget1).
  { unfold rect_in_bounds. lia. }
  destruct (draw_rect_in_bounds s1 BLUE (input_w / 4) (input_h / 4)
              (input_w / 4) (input_h / 2) input_w input_h Hs1)
    as (s2 & -> & Hs2 & Hget2).
  { unfold rect_in_bounds. Z.to_euclidean_division_equations. lia. }
  destruct (draw_rect_in_bounds s2 RED (input_w / 2) (input_h / 4)
              (input_w / 4) (input_h / 2) input_w input_h Hs2)
    as (s3 & -> & Hs3 & Hget3).
  { unfold rect_in_bounds. Z.to_euclidean_division_equations. lia. }
  exists s3. split; [reflexivity|].
  split.
  { destruct Hs3 as [E3 _]. lia. }
  intros r c Hr Hc.
  rewrite (Hget3 r c Hr Hc), (Hget2 r c Hr Hc), (Hget1 r c Hr Hc).
  assert (Hall : in_rect 0 0 input_w input_h r c = true).
  { unfold in_rect.
    destruct (Z.leb_spec 0 r), (Z.ltb_spec r (0 + input_h)),
             (Z.leb_spec 0 c), (Z.ltb_spec c (0 + input_w)); simpl; try reflexivity; lia. }
  rewrite Hall.
  destruct (in_rect (input_w / 2) _ _ _ r c); [reflexivity|].
  destruct (in_rect (input_w / 4) _ _ _ r c); reflexivity.
Qed.

Lemma simple_picture_drawn_witness :
  0 < 4 /\ 0 < 4 /\ rgb565_surface (replicate 16 7) 4 4 /\
  exists picture,
    simple_picture (replicate 16 7) 4 4 = Some picture /\
    length picture = 16%nat.
Proof.
  assert (Hs : rgb565_surface (replicate 16 7) 4 4).
  { split; [reflexivity | unfold CInt.INT_MAX; lia]. }
  split; [lia|]. split; [lia|]. split; [exact Hs|].
  destruct (simple_picture_drawn (replicate 16 7) 4 4 ltac:(lia) ltac:(lia) Hs)
    as (p & Hp & Hl & _).
  exists p. split; [exact Hp | exact Hl].
Defined.

(** The picture on a 4 x 4 buffer. *)
Example simple_picture_run :
  simple_picture (replicate 16 7) 4 4
  = Some [0; 0; 0; 0;  0; 31; 63488; 0;  0; 31; 63488; 0;  0; 0; 0; 0].
Proof. reflexivity. Qed.

(** The blue and the red bar never overlap. *)
Lemma bars_disjoint input_w input_h r c :
  0 < input_w ->
  in_rect (input_w / 2) (input_h / 4) (input_w / 4) (input_h / 2) r c = true ->
  in_rect (input_w / 4) (input_h / 4) (input_w / 4) (input_h / 2) r c = false.
Proof.
  intros Hw. unfold in_rect.
  destruct (Z.leb_spec (input_w / 2) c); [|rewrite !andb_false_r; simpl; discriminate].
  destruct (Z.ltb_spec c (input_w / 4 + input_w / 4)) as [Hlt|];
    [|intros _; apply andb_false_r].
  exfalso. Z.to_euclidean_division_equations. lia.
Qed.

Import String.StringSyntax.
Import CStr Cli CliFacts ConvertMainFacts.

Local Open Scope string_scope.
Local Open Scope Z_scope.

Section Invariant.

Variable F : sh_vid_format_t.
Variable stat : string -> option Z.

Lemma set_colorspace_result arg c :
  snd (set_colorspace F arg c) = c \/ snd (set_colorspace F arg c) ∈ enumerated F.
Proof.
  unfold set_colorspace. destruct arg as [a|]; [|left; reflexivity].
  destruct (find _ (exts F)) as [e|] eqn:E; [|left; reflexivity].
  apply find_some in E as [Hin _]. right. apply exts_enumerated, Hin.
Qed.

Lemma guess_colorspace_result unknown filename c :
  snd (guess_colorspace F unknown filename c) = c \/
  snd (guess_colorspace F unknown filename c) ∈ enumerated F.
Proof.
  unfold guess_colorspace. destruct filename as [f|]; [|left; reflexivity].
  destruct (streq f "-"); [left; reflexivity|].
  destruct (negb (c =? unknown)); [left; reflexivity|].
  destruct (strrchr f dot); [|left; reflexivity].
  apply set_colorspace_result.
Qed.

Definition display_state_ok (st : state) : Prop :=
  (input_colorspace st = -1 \/ input_colorspace st ∈ enumerated F) /\
  dims_ok (input_w st) (input_h st).

Lemma display_option_step_keeps c optarg st :
  display_state_ok st -> display_state_ok (option_step F c optarg st).
Proof.
  intros [Hc Hd]. unfold option_step.
  repeat match goal with
         | |- context [Z.eqb c ?k] => destruct (Z.eqb c k)
         end;
    split; simpl; try assumption;
    first [ apply (set_size_keeps stat), Hd
          | destruct (set_colorspace_result optarg (input_colorspace st)) as [-> | H];
            [exact Hc | right; exact H] ].
Qed.

Lemma display_option_loop_keeps opts : forall st st',
  display_state_ok st -> option_loop F opts st = Some st' -> display_state_ok st'.
Proof.
  induction opts as [|[c optarg] rest IH]; intros st st' Hok.
  - intros [= <-]. exact Hok.
  - simpl. destruct (c =? 58); [discriminate|].
    apply IH, display_option_step_keeps, Hok.
Qed.

Lemma with_input_keeps args st :
  display_state_ok st -> display_state_ok (snd (with_input F stat args st)).
Proof.
  intros [Hc Hd]. unfold with_input. destruct args as [|f more]; split;
    cbn [snd fst input_colorspace input_w input_h].
  - right. unfold enumerated. rewrite !elem_of_cons. tauto.
  - destruct (input_w st =? -1).
    + right. exists {| name := "QVGA"; w := 320; h := 240 |}. simpl. tauto.
    + exact Hd.
  - destruct (guess_colorspace_result (-1) (Some f) (input_colorspace st)) as [E | H];
      [rewrite E; exact Hc | right; exact H].
  - apply guess_size_keeps, Hd.
Qed.

(** Whenever [main] of shveu-display gets as far as the buffer, the
    colorspace is one of the five, the size is one of the table and
    [input_size] is the exact byte count, positive and at most 3686400.
    Without an input file the colorspace is RGB565 whatever was asked
    for, and the buffer holds exactly the [w*h] two-byte pixels that the
    test picture is drawn on. *)
Theorem display_parameters_resolved opts args j :
  parameters F stat opts args = Run j ->
  job_colorspace j ∈ enumerated F /\
  ConvertMain.table_size (job_w j) (job_h j) /\
  input_size j = ConvertMain.exact_size F (job_colorspace j) (job_w j) (job_h j) /\
  0 < input_size j <= 3686400 /\
  (args = [] ->
   infilename j = None /\ job_colorspace j = SH_RGB565 F /\
   (distinct_formats F -> input_size j = job_w j * job_h j * 2)).
Proof.
  unfold parameters.
  destruct (option_loop F opts initial) as [st|] eqn:E; [|discriminate].
  assert (Hok : display_state_ok st).
  { apply (display_option_loop_keeps opts initial); [|exact E].
    split; [left; reflexivity | left; simpl; tauto]. }
  destruct (show_version st || show_help st); [discriminate|].
  pose proof (with_input_keeps args st Hok) as [Hc Hd].
  assert (Hnone : args = [] ->
            fst (with_input F stat args st) = None /\
            input_colorspace (snd (with_input F stat args st)) = SH_RGB565 F)
    by (intros ->; split; reflexivity).
  destruct (with_input F stat args st) as [f st'] eqn:Ew. simpl in Hc, Hd, Hnone.
  destruct (Z.eqb_spec (input_colorspace st') (-1)); [discriminate|].
  destruct (Z.eqb_spec (input_w st') (-1)); [discriminate|].
  destruct (Z.eqb_spec (input_h st') (-1)); [discriminate|].
  simpl. intros [= <-]. simpl.
  assert (Ec : input_colorspace st' ∈ enumerated F)
    by (destruct Hc; [contradiction | assumption]).
  assert (Td : ConvertMain.table_size (input_w st') (input_h st'))
    by (destruct Hd as [[? ?] | ?]; [contradiction | assumption]).
  destruct (imgsize_of_table_size F _ _ _ Ec (or_introl Td)) as [Hi Hb].
  rewrite Hi.
  split; [exact Ec|]. split; [exact Td|]. split; [reflexivity|]. split; [exact Hb|].
  intros Hargs. destruct (Hnone Hargs) as [Hf Hrgb].
  split; [exact Hf|]. split; [exact Hrgb|].
  intros HF. rewrite Hrgb. unfold ConvertMain.exact_size.
  destruct (imgsize_switch_table F HF) as (-> & _). apply Z.quot_1_r.
Qed.

End Invariant.

(** [shveu-display -c NV12 -s cif]: no file, so RGB565 at 352 x 288. *)
Definition cif_picture_job : job :=
  {| infilename := None; job_w := 352; job_h := 288;
     job_colorspace := 3; input_size := 202752 |}.

Lemma display_parameters_resolved_witness :
  parameters shveu_h (fun _ => None) [(99, Some "NV12"); (115, Some "cif")] []
    = Run cif_picture_job /\
  job_colorspace cif_picture_job = SH_RGB565 shveu_h.
Proof.
  assert (H : parameters shveu_h (fun _ => None)
                [(99, Some "NV12"); (115, Some "cif")] [] = Run cif_picture_job)
    by reflexivity.
  split; [exact H|].
  destruct (display_parameters_resolved shveu_h _ _ _ _ H) as (_ & _ & _ & _ & Hn).
  destruct (Hn eq_refl) as (_ & Hc & _). exact Hc.
Defined.

End DisplayMainFacts.
